(** * DataRoom: upload orchestration, listing and folder scope

    A shallow embedding of [src/components/DataRoom.tsx].  The React
    component keeps five state cells ([files], [uploadProgress], [loading],
    [error], [selectedFolder]); every [setX] call becomes a functional
    update of the record [State].  The asynchronous part of the component
    (puts in flight, [Promise.all], the 2000 ms timer, pending [list]
    calls) is a labelled transition system over [World]: one [Event] is one
    callback delivered by the JavaScript event loop, and a run of the
    component is a list of events.

    The storage client ([uploadData], [list]) is an external collaborator.
    What is modelled of it is what the component can observe: the path
    resolver it is handed is called with the identity, a put is issued to
    the store with the path the resolver returns (none when it throws), and
    the result promise then fulfils or rejects.

    A [World] holds the component and one activation of
    [handleFileSelect]; the properties of a batch are stated for the runs
    of that activation.  Both folder buttons end in the
    [setSelectedFolder] call that the event [SelectFolder] stands for;
    [createFolder] adds the prompt and the trimming in front of it.
    [handleDeleteFile] is modelled as one uninterrupted call, like
    [loadFiles]; of the rendering, the conditions that decide what is
    shown ([filesView], [fileRow], [progressRow]) are modelled, the markup
    and the styles are not. *)

From stdpp Require Import base decidable option numbers list strings pretty.
From Stdlib Require Import ZArith Lia Ascii.

Local Open Scope string_scope.
Local Open Scope Z_scope.

(** ** Data model *)

(** [interface FileItem].  [size] is a whole number of bytes; [lastModified]
    is kept as milliseconds since the epoch. *)
Record FileItem := mkFileItem {
  path : string;
  size : option N;
  lastModified : option Z;
  eTag : option string
}.

(** [interface UploadProgress]. *)
Record UploadProgress := mkUploadProgress {
  fileName : string;
  progress : Z;
  isUploading : bool
}.

(** The [File] objects of the input element: only [file.name] is read. *)
Record File := mkFile { name : string }.

(** The five [useState] cells of the component. *)
Record State := mkState {
  files : list FileItem;
  uploadProgress : list UploadProgress;
  loading : bool;
  error : option string;
  selectedFolder : string
}.

Definition setFiles (v : list FileItem) (s : State) : State :=
  mkState v (uploadProgress s) (loading s) (error s) (selectedFolder s).
Definition setUploadProgress (f : list UploadProgress -> list UploadProgress)
    (s : State) : State :=
  mkState (files s) (f (uploadProgress s)) (loading s) (error s) (selectedFolder s).
Definition setLoading (v : bool) (s : State) : State :=
  mkState (files s) (uploadProgress s) v (error s) (selectedFolder s).
Definition setError (v : option string) (s : State) : State :=
  mkState (files s) (uploadProgress s) (loading s) v (selectedFolder s).
Definition setSelectedFolder (v : string) (s : State) : State :=
  mkState (files s) (uploadProgress s) (loading s) (error s) v.

(** [useState] initial values. *)
Definition initialState : State := mkState [] [] false None "".

(** ** Paths *)

(** [!identityId]: [undefined] and the empty string are both falsy. *)
Definition falsy_string (o : option string) : bool :=
  match o with
  | None => true
  | Some s => bool_decide (s = "")
  end.

(** The [path] resolver handed to [list]:
    [`user-files/${identityId}/${selectedFolder}`], or a throw ([None]). *)
Definition list_path (folder : string) (identityId : option string) : option string :=
  match identityId with
  | Some id => if falsy_string identityId then None
               else Some ("user-files/" +:+ id +:+ "/" +:+ folder)
  | None => None
  end.

(** [`${Date.now()}-${file.name}`]; [now] is the clock reading in
    milliseconds. *)
Definition timestamped (now : N) (file : File) : string :=
  pretty now +:+ "-" +:+ name file.

(** [selectedFolder ? `${selectedFolder}/` : ''] *)
Definition folderPath (folder : string) : string :=
  if bool_decide (folder = "") then "" else folder +:+ "/".

(** The [path] resolver handed to [uploadData]:
    [`user-files/${identityId}/${folderPath}${fileName}`], or a throw. *)
Definition upload_path (folder fname : string) (identityId : option string)
    : option string :=
  match identityId with
  | Some id => if falsy_string identityId then None
               else Some ("user-files/" +:+ id +:+ "/" +:+ folderPath folder +:+ fname)
  | None => None
  end.

(** ** formatFileSize *)

Definition sizes : list string := ["B"; "KB"; "MB"; "GB"].

(** [Math.floor(Math.log(bytes) / Math.log(1024))] for a whole number of
    bytes [bytes >= 1], taken exactly: the largest [i] with
    [1024^i <= bytes].  The source floors the quotient of two doubles; the
    two agree for every size below 1024^4 and both are at least 4 from
    there on, but just below a higher power they can differ (at
    1024^5 - 1 the double quotient is 5 where the exact index is 4), so
    the number printed is stated only for sizes below 1024^4. *)
Definition unit_index (bytes : N) : nat := N.to_nat (N.log2 bytes / 10).

(** [x.toFixed(1)] for [x = num / den]: the integer [n] closest to
    [10 * x], the larger one on a tie, printed with one decimal.  The
    quotient [bytes / Math.pow(1024, i)] is a division by a power of two,
    which is exact on doubles. *)
Definition toFixed1 (num den : N) : string :=
  let n := ((20 * num + den) / (2 * den))%N in
  pretty (n / 10)%N +:+ "." +:+ pretty (n mod 10)%N.

(** [`${sizes[i]}`]: an index outside the array reads [undefined]. *)
Definition template_unit (u : option string) : string :=
  match u with
  | Some s => s
  | None => "undefined"
  end.

Definition formatFileSize (bytes : option N) : string :=
  match bytes with
  | None => "Unknown size"
  | Some 0%N => "Unknown size"
  | Some b =>
      let i := unit_index b in
      toFixed1 b (1024 ^ N.of_nat i) +:+ " " +:+ template_unit (sizes !! i)
  end.

(** ** loadFiles *)

(** What [await list(...)] gives back: [result.items] (possibly absent), or
    a rejection. *)
Inductive ListResult :=
  | ListOk (items : option (list FileItem))
  | ListErr.

(** The part of [loadFiles] before the [await]. *)
Definition loadFiles_begin (s : State) : State :=
  setError None (setLoading true s).

(** The part of [loadFiles] after the [await]: [try] tail or [catch], then
    [finally]. *)
Definition loadFiles_end (r : ListResult) (s : State) : State :=
  let s' :=
    match r with
    | ListOk items => setFiles (default [] items) s
    | ListErr => setError (Some "Failed to load files") s
    end in
  setLoading false s'.

(** The [list] call as the component sees it: the resolver throws when the
    identity is unavailable, otherwise the store answers for the path. *)
Definition list_call (store : string -> ListResult) (folder : string)
    (identityId : option string) : ListResult :=
  match list_path folder identityId with
  | Some p => store p
  | None => ListErr
  end.

(** One whole [loadFiles()] with nothing interleaved. *)
Definition loadFiles (store : string -> ListResult) (identityId : option string)
    (s : State) : State :=
  loadFiles_end (list_call store (selectedFolder s) identityId) (loadFiles_begin s).

(** ** Upload progress entries *)

(** [prev.map((item, i) => i === index ? f(item) : item)] *)
Definition map_at (index : nat) (f : UploadProgress -> UploadProgress)
    (prev : list UploadProgress) : list UploadProgress :=
  imap (fun i item => if bool_decide (i = index) then f item else item) prev.

(** [{ ...item, progress }] *)
Definition with_progress (p : Z) (item : UploadProgress) : UploadProgress :=
  mkUploadProgress (fileName item) p (isUploading item).
(** [{ ...item, isUploading: false, progress: 100 }] *)
Definition mark_completed (item : UploadProgress) : UploadProgress :=
  mkUploadProgress (fileName item) 100 false.
(** [{ ...item, isUploading: false, progress: 0 }] *)
Definition mark_failed (item : UploadProgress) : UploadProgress :=
  mkUploadProgress (fileName item) 0 false.

(** [Math.round((transferredBytes / totalBytes) * 100)] for
    [totalBytes > 0], with the quotient taken exactly:
    [floor (100 t / T + 1/2)].  The source rounds the double
    [(t / T) * 100], which near a half-way point can differ by one: 23 of
    40 bytes is 57.49999999999999 on doubles and is stored as 57, while
    the exact 57.5 gives 58.  Only the bounds 0 and 100, which hold for
    both, are stated of [percent] below. *)
Definition percent (transferredBytes totalBytes : N) : Z :=
  (200 * Z.of_N transferredBytes + Z.of_N totalBytes) / (2 * Z.of_N totalBytes).

(** The [onProgress] callback of the upload at [index].  [totalBytes] is
    optional; [if (totalBytes)] lets through neither [undefined] nor 0. *)
Definition onProgress (index : nat) (transferredBytes : N) (totalBytes : option N)
    (s : State) : State :=
  match totalBytes with
  | None => s
  | Some 0%N => s
  | Some total =>
      setUploadProgress (map_at index (with_progress (percent transferredBytes total))) s
  end.

(** The task states of the specification, read off an entry the way the
    component renders it ([!item.isUploading && item.progress === 100] is
    the "Complete" badge). *)
Inductive Status := InProgress | Completed | Failed.


(** ** The component between events *)

Inductive Settle := Pending | Fulfilled | Rejected.

Global Instance Settle_eq_dec : EqDecision Settle.
Proof. solve_decision. Defined.

(** One element of [uploadPromises]: the file closed over, the path the
    resolver produced for the store ([None]: the resolver threw, no put is
    issued), and the state of the promise. *)
Record Upload := mkUpload {
  file : File;
  dest : option string;
  settle : Settle
}.

Definition settled (st : Settle) (u : Upload) : Upload :=
  mkUpload (file u) (dest u) st.

(** The [setTimeout(..., 2000)] of the success branch. *)
Inductive Timer := NotSet | Armed | Fired.

Global Instance Timer_eq_dec : EqDecision Timer.
Proof. solve_decision. Defined.

(** The component together with its latest activation of
    [handleFileSelect]: a new selection takes the place of the one before,
    whose promises are then no longer followed ([idle] says that none of
    them is pending).  [batch] is [Promise.all(uploadPromises)] as awaited
    by the handler ([None]: the handler has not run); [batchFolder] is the
    [selectedFolder] its closures captured; [puts] are the paths of the put
    operations issued to the store; [listCalls] are the folders of the
    [loadFiles()] calls started, [pendingLists] how many of them still
    await their answer; [timer] is [Armed] while a clearing timer is
    outstanding, whichever activation set it. *)
Record World := mkWorld {
  ui : State;
  identity : option string;
  uploads : list Upload;
  batchFolder : string;
  batch : option Settle;
  puts : list string;
  listCalls : list string;
  pendingLists : nat;
  timer : Timer
}.

Definition with_ui (f : State -> State) (w : World) : World :=
  mkWorld (f (ui w)) (identity w) (uploads w) (batchFolder w) (batch w)
          (puts w) (listCalls w) (pendingLists w) (timer w).

(** Calling [loadFiles()] with a closure over [folder]: the synchronous
    part runs, the [list] call is out. *)
Definition call_loadFiles (folder : string) (w : World) : World :=
  mkWorld (loadFiles_begin (ui w)) (identity w) (uploads w) (batchFolder w)
          (batch w) (puts w) (listCalls w ++ [folder]) (S (pendingLists w))
          (timer w).

(** The component after its first render: [useEffect] has called
    [loadFiles()] for the root folder. *)
Definition mounted (identityId : option string) : World :=
  call_loadFiles "" (mkWorld initialState identityId [] "" None [] [] 0 NotSet).

Definition is_settle (st : Settle) (u : Upload) : bool :=
  bool_decide (settle u = st).

(** The state of [Promise.all(ps)]: rejected as soon as one element is,
    fulfilled once all are. *)
Definition promise_all (ps : list Upload) : Settle :=
  if existsb (is_settle Rejected) ps then Rejected
  else if forallb (is_settle Fulfilled) ps then Fulfilled
  else Pending.

(** The continuation of [await Promise.all(uploadPromises)]: it runs once,
    when the combined promise settles.  The [try] tail is [setError(null)],
    [setTimeout], [await loadFiles()]; the [catch] is the one [setError]. *)
Definition await_all (w : World) : World :=
  match batch w with
  | Some Pending =>
      match promise_all (uploads w) with
      | Pending => w
      | Fulfilled =>
          call_loadFiles (batchFolder w)
            (mkWorld (setError None (ui w)) (identity w) (uploads w)
                     (batchFolder w) (Some Fulfilled) (puts w) (listCalls w)
                     (pendingLists w) Armed)
      | Rejected =>
          mkWorld (setError (Some "Some files failed to upload") (ui w))
                  (identity w) (uploads w) (batchFolder w) (Some Rejected)
                  (puts w) (listCalls w) (pendingLists w) (timer w)
      end
  | _ => w
  end.

(** The synchronous part of [handleFileSelect].  [now index] is the value
    [Date.now()] returns in the iteration for [index]; [selectedFiles] is
    [event.target.files]. *)
Definition handleFileSelect (now : nat -> N) (selectedFiles : option (list File))
    (w : World) : World :=
  match selectedFiles with
  | None => w
  | Some fileArray =>
      let initialProgress :=
        (fun f => mkUploadProgress (name f) 0 true) <$> fileArray in
      let folder := selectedFolder (ui w) in
      let uploadPromises :=
        imap (fun index f =>
                mkUpload f (upload_path folder (timestamped (now index) f) (identity w))
                         Pending) fileArray in
      await_all
        (mkWorld (setUploadProgress (fun _ => initialProgress) (ui w))
                 (identity w) uploadPromises folder (Some Pending)
                 (puts w ++ omap dest uploadPromises) (listCalls w)
                 (pendingLists w) (timer w))
  end.

(** ** Events *)

Inductive Event :=
  | Progress (index : nat) (transferredBytes : N) (totalBytes : option N)
  | PutFulfilled (index : nat)
  | PutRejected (index : nat)
  | TimerFired
  | ListSettled (r : ListResult)
  | SelectFolder (prefix : string).

Definition set_upload (index : nat) (st : Settle) (w : World) : World :=
  mkWorld (ui w) (identity w) (alter (settled st) index (uploads w))
          (batchFolder w) (batch w) (puts w) (listCalls w) (pendingLists w)
          (timer w).

Definition is_ListErr (r : ListResult) : bool :=
  match r with ListErr => true | ListOk _ => false end.

(** One callback delivered by the event loop; [None] when the event cannot
    occur in [w]:
    - a progress callback belongs to an upload of the batch; the component
      does not look at the state of the upload, so a callback that came
      after the promise settled would still rewrite the entry ([timely]
      below says that none does);
    - a fulfilment needs a put in flight;
    - a rejection needs a pending promise (the resolver threw, or the
      store failed);
    - the timer fires once, after it was armed;
    - a [list] answer needs a call that is out, and is a rejection when
      the identity is unavailable;
    - [setSelectedFolder(prefix)] with the value already held changes no
      state, so [loadFiles] keeps its identity and the effect depending on
      it does not run again. *)
Definition step (e : Event) (w : World) : option World :=
  match e with
  | Progress index transferredBytes totalBytes =>
      match uploads w !! index with
      | Some _ =>
          Some (with_ui (onProgress index transferredBytes totalBytes) w)
      | None => None
      end
  | PutFulfilled index =>
      match uploads w !! index with
      | Some (mkUpload _ (Some _) Pending) =>
          Some (await_all
                  (set_upload index Fulfilled
                     (with_ui (setUploadProgress (map_at index mark_completed)) w)))
      | _ => None
      end
  | PutRejected index =>
      match uploads w !! index with
      | Some (mkUpload _ _ Pending) =>
          Some (await_all
                  (set_upload index Rejected
                     (with_ui (setUploadProgress (map_at index mark_failed)) w)))
      | _ => None
      end
  | TimerFired =>
      match timer w with
      | Armed =>
          Some (mkWorld (setUploadProgress (fun _ => []) (ui w)) (identity w)
                        (uploads w) (batchFolder w) (batch w) (puts w)
                        (listCalls w) (pendingLists w) Fired)
      | _ => None
      end
  | ListSettled r =>
      match pendingLists w with
      | S n =>
          if falsy_string (identity w) && negb (is_ListErr r) then None
          else Some (mkWorld (loadFiles_end r (ui w)) (identity w) (uploads w)
                             (batchFolder w) (batch w) (puts w) (listCalls w)
                             n (timer w))
      | O => None
      end
  | SelectFolder prefix =>
      if bool_decide (prefix = selectedFolder (ui w)) then Some w
      else Some (call_loadFiles prefix (with_ui (setSelectedFolder prefix) w))
  end.

Fixpoint run (tr : list Event) (w : World) : option World :=
  match tr with
  | [] => Some w
  | e :: tr' =>
      match step e w with
      | Some w' => run tr' w'
      | None => None
      end
  end.

(** ** Notions used in the statements *)

(** [progressPercent] is an integer from 0 to 100. *)
Definition in_range (item : UploadProgress) : Prop :=
  0 <= progress item <= 100.

(** The progress callback is handed a byte count that does not exceed the
    total, when the total is known and not zero (with a total that is
    absent or zero nothing is asked of the count). *)
Definition callback_contract (e : Event) : Prop :=
  match e with
  | Progress _ transferredBytes (Some totalBytes) =>
      totalBytes = 0%N \/ (transferredBytes <= totalBytes)%N
  | _ => True
  end.

(** The storage client reports progress for an upload only until its
    result promise settles. *)
Definition timely_event (e : Event) (w : World) : bool :=
  match e with
  | Progress index _ _ =>
      match uploads w !! index with
      | Some u => bool_decide (settle u = Pending)
      | None => false
      end
  | _ => true
  end.




(** The string ends in a blank and one of the four units. *)
Definition has_unit (s : string) : Prop :=
  exists d u, u ∈ sizes /\ s = d +:+ " " +:+ u.

Fixpoint last_char (s : string) : option ascii :=
  match s with
  | EmptyString => None
  | String c s' =>
      match last_char s' with
      | None => Some c
      | Some c' => Some c'
      end
  end.

Definition is_digit (c : ascii) : bool :=
  bool_decide (c ∈ ["0"; "1"; "2"; "3"; "4"; "5"; "6"; "7"; "8"; "9"]%char).

Fixpoint all_digits (s : string) : bool :=
  match s with
  | EmptyString => true
  | String c s' => is_digit c && all_digits s'
  end.



Global Instance Status_eq_dec : EqDecision Status.
Proof. solve_decision. Defined.




(** What holds of every world a batch can reach, whatever the world [w0]
    in which [handleFileSelect now (Some fs)] was called. *)
Record batch_inv (now : nat -> N) (fs : list File) (w0 w : World) : Prop := {
  inv_identity : identity w = identity w0;
  inv_folder : batchFolder w = selectedFolder (ui w0);
  inv_files : file <$> uploads w = fs;
  inv_dest : forall i u, uploads w !! i = Some u ->
      dest u = upload_path (selectedFolder (ui w0))
                           (timestamped (now i) (file u)) (identity w0);
  inv_puts : puts w = (puts w0 ++ omap dest (uploads w))%list;
  inv_batch : batch w = Some (promise_all (uploads w))
}.













(** Every percentage the batch stores is from 0 to 100. *)
Definition stored_in_range (now : nat -> N) (fs : list File) (w0 : World) : Prop :=
  forall tr w,
    run tr (handleFileSelect now (Some fs) w0) = Some w ->
    Forall in_range (uploadProgress (ui w)).

(** Every [setSelectedFolder(prefix)] starts a refresh for [prefix]. *)
Definition setScope_refreshes (w : World) (prefix : string) : Prop :=
  exists w', step (SelectFolder prefix) w = Some w' /\
             selectedFolder (ui w') = prefix /\
             listCalls w' = (listCalls w ++ [prefix])%list.

(** ** getFileName *)

(** [s.split(sep)] for a separator of one character: the pieces between
    the occurrences of [sep], in order; never an empty array. *)
Fixpoint split (sep : ascii) (s : string) : list string :=
  match s with
  | EmptyString => [""]
  | String c s' =>
      if bool_decide (c = sep) then "" :: split sep s'
      else match split sep s' with
           | seg :: segs => String c seg :: segs
           | [] => [String c ""]
           end
  end.

(** [path.split('/').pop() || path]: [pop()] is the last piece, and an
    empty piece is falsy. *)
Definition getFileName (path : string) : string :=
  match last (split "/" path) with
  | Some seg => if bool_decide (seg = "") then path else seg
  | None => path
  end.

Fixpoint contains (c : ascii) (s : string) : bool :=
  match s with
  | EmptyString => false
  | String c' s' => bool_decide (c' = c) || contains c s'
  end.

(** ** createFolder *)

(** The white space and line terminators that [trim] strips, among the
    code units below 256: TAB, LF, VT, FF, CR, SP, NBSP.  A character of a
    string stands for one such code unit. *)
Definition is_whitespace (c : ascii) : bool :=
  bool_decide (nat_of_ascii c ∈ [9; 10; 11; 12; 13; 32; 160]%nat).

Fixpoint trimStart (s : string) : string :=
  match s with
  | EmptyString => ""
  | String c s' => if is_whitespace c then trimStart s' else s
  end.

Fixpoint trimEnd (s : string) : string :=
  match s with
  | EmptyString => ""
  | String c s' =>
      match trimEnd s' with
      | EmptyString => if is_whitespace c then "" else String c ""
      | t => String c t
      end
  end.

(** [s.trim()] *)
Definition trim (s : string) : string := trimEnd (trimStart s).

Fixpoint all_whitespace (s : string) : bool :=
  match s with
  | EmptyString => true
  | String c s' => is_whitespace c && all_whitespace s'
  end.

Definition first_char (s : string) : option ascii :=
  match s with
  | EmptyString => None
  | String c _ => Some c
  end.

(** [createFolder]: [folderName] is what [prompt] returned ([None] when
    it was cancelled); [folderName && folderName.trim()] lets through the
    answers that are not empty after trimming, and the scope becomes the
    trimmed answer. *)
Definition createFolder (folderName : option string) (w : World) : option World :=
  match folderName with
  | Some answer =>
      if negb (bool_decide (answer = "")) && negb (bool_decide (trim answer = ""))
      then step (SelectFolder (trim answer)) w
      else Some w
  | None => Some w
  end.

(** ** handleDeleteFile *)

(** The operations that reach the store. *)
Inductive StoreCall :=
  | RemoveCall (path : string)
  | ListCall (path : string).

(** The [list] operation a [loadFiles()] sends: none when the resolver
    throws. *)
Definition loadFiles_calls (folder : string) (identityId : option string)
    : list StoreCall :=
  match list_path folder identityId with
  | Some p => [ListCall p]
  | None => []
  end.

(** One whole [handleDeleteFile(filePath)] with nothing interleaved.
    [confirmed] is the answer of [window.confirm]; [remove p] tells whether
    the store's [remove] for [p] resolves.  The result is the new state and
    the operations sent to the store, in order. *)
Definition handleDeleteFile (confirmed : bool) (remove : string -> bool)
    (store : string -> ListResult) (identityId : option string)
    (filePath : string) (s : State) : State * list StoreCall :=
  if negb confirmed then (s, [])
  else if remove filePath then
    (setError None (loadFiles store identityId s),
     RemoveCall filePath :: loadFiles_calls (selectedFolder s) identityId)
  else
    (setError (Some "Failed to delete file") s, [RemoveCall filePath]).

(** ** What is rendered *)

(** One row of the file list: the React key, the displayed name and size,
    and the date when there is one. *)
Record FileRow := mkFileRow {
  rowKey : string;
  rowName : string;
  rowSize : string;
  rowDate : option Z
}.

Definition fileRow (f : FileItem) : FileRow :=
  mkFileRow (path f) (getFileName (path f)) (formatFileSize (size f))
            (lastModified f).

(** The three-way conditional of the files section. *)
Inductive FilesView :=
  | LoadingFiles
  | NoFilesFound
  | FilesList (rows : list FileRow).

Definition filesView (s : State) : FilesView :=
  if loading s && bool_decide (length (files s) = 0%nat) then LoadingFiles
  else if bool_decide (length (files s) = 0%nat) then NoFilesFound
  else FilesList (fileRow <$> files s).


(** ** The storage access rule *)

(** [amplify/storage/resource.ts] grants an identity the paths
    ['user-files/{entity_id}/*']: those that start with its own prefix. *)
Definition own_prefix (id : string) : string := "user-files/" +:+ id +:+ "/".

Definition starts_with (p s : string) : Prop := exists rest, s = p +:+ rest.

(** ** More notions used in the statements *)

(** The number [formatFileSize] prints, in tenths. *)
Definition tenths (b : N) : N :=
  let d := (1024 ^ N.of_nat (unit_index b))%N in
  ((20 * b + d) / (2 * d))%N.

(** The destination of an upload is determined by this pair. *)
Definition stamp (now : nat -> N) (index : nat) (f : File) : N * string :=
  (now index, name f).

(** * Properties *)

(** ** Strings *)

Lemma last_char_app (s t : string) :
  t <> "" -> last_char (s +:+ t) = last_char t.
Proof.
  intros Ht. induction s as [|c s IH]; simpl; [done|].
  rewrite IH. destruct t as [|c' t']; [done|].
  simpl. by destruct (last_char t').
Qed.

Lemma has_unit_last (s : string) :
  has_unit s -> last_char s = Some "B"%char.
Proof.
  intros (d & u & Hu & ->).
  rewrite last_char_app by done.
  unfold sizes in Hu.
  repeat (apply elem_of_cons in Hu as [->|Hu]; [reflexivity|]).
  by apply elem_of_nil in Hu.
Qed.

(** ** formatFileSize *)

(** [unit_index] is the exact value of the floored logarithm: the
    exponent of the largest power of 1024 that does not exceed the size. *)
Lemma unit_index_spec (b : N) :
  (1 <= b)%N ->
  (1024 ^ N.of_nat (unit_index b) <= b < 1024 ^ (N.of_nat (unit_index b) + 1))%N.
Proof.
  intros Hb. unfold unit_index. rewrite N2Nat.id.
  destruct (N.log2_spec b ltac:(lia)) as [Hlo Hhi].
  pose proof (N.Div0.mul_div_le (N.log2 b) 10) as Hq.
  pose proof (N.mul_succ_div_gt (N.log2 b) 10 ltac:(lia)) as Hq'.
  change 1024%N with (2 ^ 10)%N. rewrite <- !N.pow_mul_r. split.
  - etrans; [|exact Hlo]. apply N.pow_le_mono_r; lia.
  - eapply N.lt_le_trans; [exact Hhi|]. apply N.pow_le_mono_r; lia.
Qed.

Example formatFileSize_KB : formatFileSize (Some 1536%N) = "1.5 KB".
Proof. reflexivity. Qed.

Example formatFileSize_B : formatFileSize (Some 1023%N) = "1023.0 B".
Proof. reflexivity. Qed.

Example formatFileSize_GB :
  formatFileSize (Some (3 * 1024 ^ 3)%N) = "3.0 GB".
Proof. reflexivity. Qed.

Example formatFileSize_TB :
  formatFileSize (Some (1024 ^ 4)%N) = "1.0 undefined".
Proof. reflexivity. Qed.

Lemma unit_index_lt_4 (b : N) :
  (b < 1024 ^ 4)%N -> (unit_index b < 4)%nat.
Proof.
  intros Hb. unfold unit_index.
  assert (N.log2 b < 40)%N as Hlog.
  { destruct (decide (b = 0%N)) as [->|Hne]; [done|].
    apply N.log2_lt_pow2; [lia|]. exact Hb. }
  assert (N.log2 b / 10 < 4)%N by (apply N.Div0.div_lt_upper_bound; lia).
  lia.
Qed.

Lemma unit_index_ge_4 (b : N) :
  (1024 ^ 4 <= b)%N -> (4 <= unit_index b)%nat.
Proof.
  intros Hb. unfold unit_index.
  assert (40 <= N.log2 b)%N as Hlog.
  { apply N.log2_le_pow2; [lia|]. exact Hb. }
  assert (4 <= N.log2 b / 10)%N by (apply N.div_le_lower_bound; lia).
  lia.
Qed.

(** C10.  An absent size and a size of zero bytes both give
    ["Unknown size"]; the result ends in one of the units B, KB, MB, GB
    exactly for the sizes from 1 byte up to, and not including, 1024^4
    bytes (from there on the unit reads "undefined"). *)
Theorem formatFileSize_units :
  formatFileSize None = "Unknown size" /\
  formatFileSize (Some 0%N) = "Unknown size" /\
  (forall b : N, has_unit (formatFileSize (Some b)) <-> (1 <= b < 1024 ^ 4)%N) /\
  (forall b : N, (1024 ^ 4 <= b)%N ->
     exists d, formatFileSize (Some b) = d +:+ " undefined").
Proof.
  split; [done|]. split; [done|]. split.
  - intros b. split.
    + intros Hu. apply has_unit_last in Hu.
      destruct b as [|p]; [discriminate Hu|].
      split; [lia|].
      destruct (decide (N.pos p < 1024 ^ 4)%N) as [|Hge]; [done|].
      exfalso. revert Hu. unfold formatFileSize.
      pose proof (unit_index_ge_4 (N.pos p) ltac:(lia)) as Hi.
      rewrite (lookup_ge_None_2 sizes (unit_index (N.pos p))) by (simpl; lia).
      rewrite last_char_app by done. discriminate.
    + intros [Hlo Hhi]. destruct b as [|p]; [lia|].
      pose proof (unit_index_lt_4 _ Hhi) as Hi.
      unfold formatFileSize, has_unit.
      destruct (sizes !! unit_index (N.pos p)) as [u|] eqn:Hu.
      * eexists _, u. split; [|reflexivity].
        by eapply list_elem_of_lookup_2.
      * apply lookup_ge_None_1 in Hu. simpl in Hu. lia.
  - intros b Hb. destruct b as [|p]; [lia|].
    pose proof (unit_index_ge_4 _ Hb) as Hi.
    unfold formatFileSize.
    rewrite (lookup_ge_None_2 sizes (unit_index (N.pos p))) by (simpl; lia).
    eexists. reflexivity.
Qed.

Lemma formatFileSize_units_witness :
  has_unit (formatFileSize (Some 1536%N)) /\
  exists d, formatFileSize (Some (1024 ^ 4)%N) = d +:+ " undefined".
Proof.
  destruct formatFileSize_units as (_ & _ & Hiff & Hundef).
  split.
  - apply Hiff. lia.
  - apply Hundef. lia.
Defined.

(** ** loadFiles *)

Lemma list_call_no_identity store folder identityId :
  falsy_string identityId = true -> list_call store folder identityId = ListErr.
Proof.
  intros Hf. unfold list_call, list_path.
  destruct identityId as [id|]; [|done]. by rewrite Hf.
Qed.

Lemma list_call_store_error store folder identityId :
  (forall p, store p = ListErr) -> list_call store folder identityId = ListErr.
Proof.
  intros Hs. unfold list_call. by destruct (list_path folder identityId).
Qed.

(** C4.  A refresh that fails, because the store call errors or because
    the identity is unavailable, leaves the published file set as it was:
    after a successful refresh that published [items], a failed one still
    shows exactly [items].  The same holds when the answer arrives as an
    event of the running component. *)
Theorem loadFiles_failure_keeps_files :
  (forall store identityId s,
     list_call store (selectedFolder s) identityId = ListErr ->
     files (loadFiles store identityId s) = files s /\
     error (loadFiles store identityId s) = Some "Failed to load files") /\
  (forall store0 id0 s0 items store identityId,
     list_call store0 (selectedFolder s0) id0 = ListOk (Some items) ->
     (falsy_string identityId = true \/ forall p, store p = ListErr) ->
     files (loadFiles store0 id0 s0) = items /\
     files (loadFiles store identityId (loadFiles store0 id0 s0)) = items) /\
  (forall w w', step (ListSettled ListErr) w = Some w' ->
     files (ui w') = files (ui w)).
Proof.
  split; [|split].
  - intros store identityId s Herr. unfold loadFiles. by rewrite Herr.
  - intros store0 id0 s0 items store identityId Hok Hfail.
    unfold loadFiles at 1 3. rewrite Hok. simpl. split; [done|].
    unfold loadFiles.
    destruct Hfail as [Hid|Hst].
    + by rewrite list_call_no_identity.
    + by rewrite list_call_store_error.
  - intros w w' Hstep. unfold step in Hstep.
    destruct (pendingLists w); [done|].
    cbn [is_ListErr negb] in Hstep. rewrite andb_false_r in Hstep.
    by injection Hstep as <-.
Qed.

Lemma loadFiles_failure_keeps_files_witness :
  let f := mkFileItem "user-files/u1/7-a.txt" (Some 3%N) None None in
  let ok := fun _ : string => ListOk (Some [f]) in
  let s1 := loadFiles ok (Some "u1") initialState in
  let w := mkWorld s1 (Some "u1") [] "" None [] [""; ""] 1 NotSet in
  files s1 = [f] /\
  files (loadFiles ok None s1) = [f] /\
  files (loadFiles (fun _ => ListErr) (Some "u1") s1) = [f] /\
  error (loadFiles ok None s1) = Some "Failed to load files" /\
  files (ui (mkWorld (loadFiles_end ListErr s1) (Some "u1") [] "" None []
                     [""; ""] 0 NotSet)) = [f].
Proof.
  intros f ok s1 w.
  destruct loadFiles_failure_keeps_files as (Hone & Htwo & Hstep).
  pose proof (Htwo ok (Some "u1") initialState [f] ok None eq_refl
                (or_introl eq_refl)) as [H1 H2].
  pose proof (Htwo ok (Some "u1") initialState [f] (fun _ => ListErr) (Some "u1")
                eq_refl (or_intror (fun _ => eq_refl))) as [_ H3].
  pose proof (Hone ok None s1 eq_refl) as [_ H4].
  pose proof (Hstep w _ eq_refl) as H5.
  exact (conj H1 (conj H2 (conj H3 (conj H4 H5)))).
Defined.

(** ** The progress callback *)

Lemma percent_bounds (t T : N) :
  (0 < T)%N -> (t <= T)%N -> 0 <= percent t T <= 100.
Proof.
  intros HT Ht. unfold percent. split.
  - apply Z.div_pos; lia.
  - cut ((200 * Z.of_N t + Z.of_N T) / (2 * Z.of_N T) < 101); [lia|].
    apply Z.div_lt_upper_bound; lia.
Qed.

Lemma map_at_lookup index f prev i :
  map_at index f prev !! i
  = (fun item => if bool_decide (i = index) then f item else item) <$> prev !! i.
Proof. unfold map_at. by rewrite list_lookup_imap. Qed.


Lemma map_at_Forall (P : UploadProgress -> Prop) index f prev :
  (forall item, P item -> P (f item)) ->
  Forall P prev -> Forall P (map_at index f prev).
Proof.
  intros Hf Hprev. apply Forall_lookup. intros i x Hx.
  rewrite map_at_lookup in Hx.
  destruct (prev !! i) as [item|] eqn:Hi; [|done].
  injection Hx as <-.
  pose proof (Forall_lookup_1 _ _ _ _ Hprev Hi) as Hitem.
  case_bool_decide; auto.
Qed.

Lemma onProgress_unguarded index t T s :
  T <> 0%N ->
  onProgress index t (Some T) s
  = setUploadProgress (map_at index (with_progress (percent t T))) s.
Proof. intros HT. by destruct T. Qed.

Lemma onProgress_in_range index t total s :
  callback_contract (Progress index t total) ->
  Forall in_range (uploadProgress s) ->
  Forall in_range (uploadProgress (onProgress index t total s)).
Proof.
  intros Hc Hs. destruct total as [T|]; [|done].
  destruct (decide (T = 0%N)) as [->|HT]; [done|].
  rewrite onProgress_unguarded by done. simpl.
  apply map_at_Forall; [|done].
  intros item _. unfold in_range. simpl.
  apply percent_bounds; [lia|]. by destruct Hc.
Qed.

Lemma percent_nonneg (t T : N) : (0 < T)%N -> 0 <= percent t T.
Proof. intros HT. unfold percent. apply Z.div_pos; lia. Qed.

Lemma onProgress_nonneg index t total s :
  Forall (fun item => 0 <= progress item) (uploadProgress s) ->
  Forall (fun item => 0 <= progress item)
         (uploadProgress (onProgress index t total s)).
Proof.
  intros Hs. destruct total as [T|]; [|done].
  destruct (decide (T = 0%N)) as [->|HT]; [done|].
  rewrite onProgress_unguarded by done. simpl.
  apply map_at_Forall; [|done].
  intros item _. simpl. apply percent_nonneg. lia.
Qed.

Lemma await_all_uploadProgress w :
  uploadProgress (ui (await_all w)) = uploadProgress (ui w).
Proof.
  unfold await_all.
  destruct (batch w) as [[| |]|]; try done.
  by destruct (promise_all (uploads w)).
Qed.

Lemma step_in_range e w w' :
  callback_contract e ->
  step e w = Some w' ->
  Forall in_range (uploadProgress (ui w)) ->
  Forall in_range (uploadProgress (ui w')).
Proof.
  intros Hc Hstep Hw. destruct e as [i t T|i|i| |r|p]; simpl in Hstep.
  - destruct (uploads w !! i); [|done].
    injection Hstep as <-. simpl. by apply onProgress_in_range.
  - destruct (uploads w !! i) as [[f [d|] []]|]; try done.
    injection Hstep as <-. rewrite await_all_uploadProgress. simpl.
    apply map_at_Forall; [|done]. intros item _. unfold in_range. simpl. lia.
  - destruct (uploads w !! i) as [[f d []]|]; try done.
    injection Hstep as <-. rewrite await_all_uploadProgress. simpl.
    apply map_at_Forall; [|done]. intros item _. unfold in_range. simpl. lia.
  - destruct (timer w); try done. injection Hstep as <-. simpl. constructor.
  - destruct (pendingLists w); [done|].
    destruct (falsy_string (identity w) && negb (is_ListErr r)); [done|].
    injection Hstep as <-. simpl. by destruct r.
  - case_bool_decide; by injection Hstep as <-.
Qed.

Lemma step_nonneg e w w' :
  step e w = Some w' ->
  Forall (fun item => 0 <= progress item) (uploadProgress (ui w)) ->
  Forall (fun item => 0 <= progress item) (uploadProgress (ui w')).
Proof.
  intros Hstep Hw. destruct e as [i t T|i|i| |r|p]; simpl in Hstep.
  - destruct (uploads w !! i); [|done].
    injection Hstep as <-. simpl. by apply onProgress_nonneg.
  - destruct (uploads w !! i) as [[f [d|] []]|]; try done.
    injection Hstep as <-. rewrite await_all_uploadProgress. simpl.
    apply map_at_Forall; [|done]. intros item _. simpl. lia.
  - destruct (uploads w !! i) as [[f d []]|]; try done.
    injection Hstep as <-. rewrite await_all_uploadProgress. simpl.
    apply map_at_Forall; [|done]. intros item _. simpl. lia.
  - destruct (timer w); try done. injection Hstep as <-. simpl. constructor.
  - destruct (pendingLists w); [done|].
    destruct (falsy_string (identity w) && negb (is_ListErr r)); [done|].
    injection Hstep as <-. simpl. by destruct r.
  - case_bool_decide; by injection Hstep as <-.
Qed.

Lemma run_in_range tr : forall w w',
  Forall callback_contract tr ->
  run tr w = Some w' ->
  Forall in_range (uploadProgress (ui w)) ->
  Forall in_range (uploadProgress (ui w')).
Proof.
  induction tr as [|e tr IH]; intros w w' Hc Hrun Hw; simpl in Hrun.
  - by injection Hrun as <-.
  - destruct (step e w) as [w1|] eqn:Hstep; [|done].
    apply Forall_cons in Hc as [He Htr].
    eapply IH; [done|done|]. by eapply step_in_range.
Qed.

Lemma run_nonneg tr : forall w w',
  run tr w = Some w' ->
  Forall (fun item => 0 <= progress item) (uploadProgress (ui w)) ->
  Forall (fun item => 0 <= progress item) (uploadProgress (ui w')).
Proof.
  induction tr as [|e tr IH]; intros w w' Hrun Hw; simpl in Hrun.
  - by injection Hrun as <-.
  - destruct (step e w) as [w1|] eqn:Hstep; [|done].
    eapply IH; [done|]. by eapply step_nonneg.
Qed.

Lemma handleFileSelect_in_range now fs w :
  Forall in_range (uploadProgress (ui (handleFileSelect now (Some fs) w))).
Proof.
  unfold handleFileSelect. rewrite await_all_uploadProgress. simpl.
  apply Forall_fmap, Forall_true. intros f. unfold in_range. simpl. lia.
Qed.

(** C9, as the component has it.  A progress callback whose [totalBytes]
    is absent or zero leaves the state, and so every [progress], as it
    was: the division is only reached with a non-zero total.  Every
    [progress] a batch stores is an integer that is not negative; it is
    at most 100 as long as the deliveries with a non-zero total hand over
    a byte count that does not exceed the total (nothing clamps it). *)
Theorem onProgress_guarded :
  (forall index transferredBytes s,
     onProgress index transferredBytes None s = s /\
     onProgress index transferredBytes (Some 0%N) s = s) /\
  (forall w w' index transferredBytes,
     step (Progress index transferredBytes None) w = Some w' \/
     step (Progress index transferredBytes (Some 0%N)) w = Some w' ->
     w' = w) /\
  (forall now fs w0 tr w,
     run tr (handleFileSelect now (Some fs) w0) = Some w ->
     Forall (fun item => 0 <= progress item) (uploadProgress (ui w))) /\
  (forall now fs w0 tr w,
     Forall callback_contract tr ->
     run tr (handleFileSelect now (Some fs) w0) = Some w ->
     Forall in_range (uploadProgress (ui w))).
Proof.
  split; [done|]. split; [|split].
  - intros w w' i t [Hstep|Hstep]; simpl in Hstep;
      destruct (uploads w !! i); try done;
      injection Hstep as <-; by destruct w.
  - intros now fs w0 tr w Hrun.
    eapply run_nonneg; [done|].
    eapply Forall_impl; [apply handleFileSelect_in_range|].
    intros item [? _]. done.
  - intros now fs w0 tr w Hc Hrun.
    eapply run_in_range; [done|done|]. apply handleFileSelect_in_range.
Qed.

Lemma onProgress_guarded_witness :
  let w0 := handleFileSelect (fun _ => 7%N) (Some [mkFile "a.txt"])
                             (mounted (Some "u1")) in
  (exists w,
     run [Progress 0 50%N (Some 200%N); Progress 0 60%N None;
          Progress 0 9%N (Some 0%N)] w0 = Some w /\
     Forall in_range (uploadProgress (ui w))) /\
  with_ui (onProgress 0 60%N (Some 0%N)) w0 = w0.
Proof.
  intros w0.
  destruct onProgress_guarded as (_ & Hsame & _ & Hrange).
  split.
  - eexists. split; [reflexivity|].
    apply (Hrange (fun _ => 7%N) [mkFile "a.txt"] (mounted (Some "u1"))
             [Progress 0 50%N (Some 200%N); Progress 0 60%N None;
              Progress 0 9%N (Some 0%N)]);
      [|reflexivity].
    apply Forall_cons. split; [simpl; right; lia|].
    apply Forall_cons. split; [exact I|].
    apply Forall_cons. split; [simpl; by left|]. constructor.
  - apply (Hsame w0 _ 0%nat 60%N). right. reflexivity.
Defined.

(** C9, as stated, fails: nothing clamps the percentage, so a delivery of
    300 bytes of 200 stores 150. *)
Lemma unclamped_progress_counterexample :
  ~ stored_in_range (fun _ => 7%N) [mkFile "a.txt"] (mounted (Some "u1")).
Proof.
  intros H.
  specialize (H [Progress 0 300%N (Some 200%N)] _ eq_refl).
  apply (Forall_lookup_1 _ _ 0%nat (mkUploadProgress "a.txt" 150 true)) in H;
    [|reflexivity].
  unfold in_range in H. simpl in H. lia.
Qed.

(** ** Promise.all *)

Lemma promise_all_Rejected us :
  promise_all us = Rejected <-> Exists (fun u => settle u = Rejected) us.
Proof.
  unfold promise_all. split.
  - destruct (existsb (is_settle Rejected) us) eqn:He.
    + intros _. apply existsb_exists in He as (u & Hin & Hu).
      apply Exists_exists. exists u. split; [by apply list_elem_of_In|].
      by apply bool_decide_eq_true in Hu.
    + by destruct (forallb (is_settle Fulfilled) us).
  - intros (u & Hin & Hu)%Exists_exists.
    rewrite (proj2 (existsb_exists _ _)); [done|].
    exists u. split; [by apply list_elem_of_In|].
    by apply bool_decide_eq_true.
Qed.

Lemma promise_all_Fulfilled us :
  promise_all us = Fulfilled <-> Forall (fun u => settle u = Fulfilled) us.
Proof.
  unfold promise_all. split.
  - destruct (existsb (is_settle Rejected) us); [done|].
    destruct (forallb (is_settle Fulfilled) us) eqn:Hf; [|done].
    intros _. apply Forall_forall. intros u Hin.
    rewrite forallb_forall in Hf.
    apply list_elem_of_In, Hf in Hin. by apply bool_decide_eq_true in Hin.
  - intros Hall.
    destruct (existsb (is_settle Rejected) us) eqn:He.
    + apply existsb_exists in He as (u & Hin & Hu).
      apply bool_decide_eq_true in Hu.
      apply list_elem_of_In in Hin.
      rewrite Forall_forall in Hall. apply Hall in Hin. congruence.
    + rewrite (proj2 (forallb_forall _ _)); [done|].
      intros u Hin. apply bool_decide_eq_true.
      rewrite Forall_forall in Hall. by apply Hall, list_elem_of_In.
Qed.

Lemma promise_all_pending_lookup us i u :
  us !! i = Some u -> settle u = Pending -> promise_all us <> Fulfilled.
Proof.
  intros Hi Hu Hall. apply promise_all_Fulfilled in Hall.
  pose proof (Forall_lookup_1 _ _ _ _ Hall Hi) as Hs. simpl in Hs. congruence.
Qed.

Lemma promise_all_alter_Rejected us i u st :
  us !! i = Some u -> settle u = Pending ->
  promise_all us = Rejected ->
  promise_all (alter (settled st) i us) = Rejected.
Proof.
  intros Hi Hu Hrej. apply promise_all_Rejected.
  apply promise_all_Rejected in Hrej.
  apply Exists_exists in Hrej as (v & [j Hj]%list_elem_of_lookup & Hv).
  apply Exists_exists. exists v. split; [|done].
  apply list_elem_of_lookup. exists j.
  rewrite list_lookup_alter_ne; [done|]. intros ->. congruence.
Qed.


(** ** The invariant of a batch *)

Lemma alter_settled_file st i (us : list Upload) :
  file <$> alter (settled st) i us = file <$> us.
Proof. revert i. induction us as [|u us IH]; intros [|i]; csimpl; f_equal; auto. Qed.

Lemma alter_settled_omap_dest st i (us : list Upload) :
  omap dest (alter (settled st) i us) = omap dest us.
Proof.
  revert i. induction us as [|u us IH]; intros [|i]; csimpl; try done.
  destruct (dest u); simpl; by rewrite ?IH.
Qed.

Lemma alter_settled_lookup st i (us : list Upload) j u' :
  alter (settled st) i us !! j = Some u' ->
  exists u, us !! j = Some u /\ file u' = file u /\ dest u' = dest u /\
            (j <> i -> u' = u) /\ (j = i -> settle u' = st).
Proof.
  rewrite list_lookup_alter. case_decide as Hij.
  - subst j. destruct (us !! i) as [u|]; [|done].
    simpl. intros [= <-]. exists u. by repeat split.
  - intros Hj. exists u'. repeat split; (done || congruence).
Qed.

Lemma await_all_frame w :
  identity (await_all w) = identity w /\
  uploads (await_all w) = uploads w /\
  batchFolder (await_all w) = batchFolder w /\
  puts (await_all w) = puts w /\
  files (ui (await_all w)) = files (ui w) /\
  selectedFolder (ui (await_all w)) = selectedFolder (ui w).
Proof.
  unfold await_all.
  destruct (batch w) as [[| |]|]; try done.
  by destruct (promise_all (uploads w)).
Qed.

Lemma await_all_batch w :
  batch w = Some Pending \/
    (batch w = Some Rejected /\ promise_all (uploads w) = Rejected) ->
  batch (await_all w) = Some (promise_all (uploads w)).
Proof.
  unfold await_all. intros [Hb|[Hb Hrej]]; rewrite Hb.
  - by destruct (promise_all (uploads w)).
  - by rewrite Hrej.
Qed.


Lemma await_all_inv now fs w0 w :
  identity w = identity w0 ->
  batchFolder w = selectedFolder (ui w0) ->
  file <$> uploads w = fs ->
  (forall i u, uploads w !! i = Some u ->
     dest u = upload_path (selectedFolder (ui w0))
                          (timestamped (now i) (file u)) (identity w0)) ->
  puts w = (puts w0 ++ omap dest (uploads w))%list ->
  batch w = Some Pending \/
    (batch w = Some Rejected /\ promise_all (uploads w) = Rejected) ->
  batch_inv now fs w0 (await_all w).
Proof.
  intros Hid Hfo Hfi Hde Hpu Hbatch.
  destruct (await_all_frame w) as (Ei & Eu & Ef & Ep & _ & _).
  pose proof (await_all_batch w Hbatch) as Hb.
  split; rewrite ?Ei, ?Eu, ?Ef, ?Ep; done.
Qed.


Lemma handleFileSelect_inv now fs w0 :
  batch_inv now fs w0 (handleFileSelect now (Some fs) w0).
Proof.
  unfold handleFileSelect.
  apply await_all_inv; simpl; try done; [| |by left].
  - apply list_eq. intros i.
    rewrite list_lookup_fmap, list_lookup_imap.
    by destruct (fs !! i).
  - intros i u Hu. rewrite list_lookup_imap in Hu.
    destruct (fs !! i); [|done]. by injection Hu as <-.
Qed.



(** The world after the promise at [index] settled with [st], before the
    continuation of the [await] looks at it. *)
Lemma settle_batch now fs w0 w index u st f :
  batch_inv now fs w0 w ->
  uploads w !! index = Some u -> settle u = Pending ->
  batch_inv now fs w0
    (await_all (set_upload index st
                  (with_ui (setUploadProgress (map_at index f)) w))).
Proof.
  intros [Hid Hfo Hfi Hde Hpu Hba] Hu Hpend.
  pose proof (promise_all_pending_lookup _ _ _ Hu Hpend) as Hnf.
  apply await_all_inv; simpl; try done.
  - by rewrite alter_settled_file.
  - intros j u' Hj.
    apply alter_settled_lookup in Hj as (v & Hv & Efile & Edest & _).
    rewrite Edest, Efile. by apply Hde.
  - by rewrite alter_settled_omap_dest.
  - rewrite Hba.
    destruct (promise_all (uploads w)) eqn:Hall; [by left|done|right].
    split; [done|]. by eapply promise_all_alter_Rejected.
Qed.





Lemma step_inv now fs w0 e w w' :
  batch_inv now fs w0 w -> step e w = Some w' -> batch_inv now fs w0 w'.
Proof.
  intros Hinv Hstep. destruct e as [i t T|i|i| |r|p]; simpl in Hstep.
  - destruct (uploads w !! i); [|done]. injection Hstep as <-.
    destruct Hinv. by split.
  - destruct (uploads w !! i) as [[f [d|] []]|] eqn:Hu; try done.
    injection Hstep as <-. by eapply settle_batch.
  - destruct (uploads w !! i) as [[f d []]|] eqn:Hu; try done.
    injection Hstep as <-. by eapply settle_batch.
  - destruct (timer w); try done. injection Hstep as <-.
    destruct Hinv. by split.
  - destruct (pendingLists w); [done|].
    destruct (falsy_string (identity w) && negb (is_ListErr r)); [done|].
    injection Hstep as <-. destruct Hinv. by split.
  - case_bool_decide; injection Hstep as <-; [done|].
    destruct Hinv. by split.
Qed.




Lemma run_inv now fs w0 tr : forall w w',
  batch_inv now fs w0 w -> run tr w = Some w' -> batch_inv now fs w0 w'.
Proof.
  induction tr as [|e tr IH]; intros w w' Hinv Hrun; simpl in Hrun.
  - by injection Hrun as <-.
  - destruct (step e w) as [w1|] eqn:Hstep; [|done].
    eapply IH; [|done]. by eapply step_inv.
Qed.



Lemma batch_reaches now fs w0 tr w :
  run tr (handleFileSelect now (Some fs) w0) = Some w ->
  batch_inv now fs w0 w.
Proof.
  intros Hrun. eapply run_inv; [|done]. apply handleFileSelect_inv.
Qed.








(** ** A batch whose puts all succeed *)












(** ** A put that fails *)






(** ** A batch with failures *)











(** ** A batch without identity *)







(** ** What follows the completion of a batch *)






(** ** Changing the folder *)

(** C8, as the component has it.  [setSelectedFolder(prefix)] with a
    prefix other than the current one replaces the scope and starts a
    refresh for the new prefix; with the current prefix it changes nothing
    and starts no refresh.  Either way the uploads in flight, the puts
    issued and the progress entries are untouched, and every upload of a
    batch keeps the destination computed from the folder and the identity
    at submission, whatever folder changes happen while it runs. *)
Theorem setScope_effect :
  (forall w prefix,
     exists w', step (SelectFolder prefix) w = Some w' /\
       selectedFolder (ui w') = prefix /\
       uploads w' = uploads w /\ puts w' = puts w /\
       uploadProgress (ui w') = uploadProgress (ui w) /\
       batch w' = batch w /\ batchFolder w' = batchFolder w /\
       timer w' = timer w /\
       (prefix <> selectedFolder (ui w) ->
        listCalls w' = (listCalls w ++ [prefix])%list /\
        pendingLists w' = S (pendingLists w)) /\
       (prefix = selectedFolder (ui w) -> w' = w)) /\
  (forall now fs w0 tr w,
     run tr (handleFileSelect now (Some fs) w0) = Some w ->
     batchFolder w = selectedFolder (ui w0) /\
     puts w = (puts w0 ++ omap dest (uploads w))%list /\
     forall i u, uploads w !! i = Some u ->
       dest u = upload_path (selectedFolder (ui w0))
                            (timestamped (now i) (file u)) (identity w0)).
Proof.
  split.
  - intros w prefix. simpl. case_bool_decide as Hp.
    + exists w. by repeat split.
    + eexists. split; [reflexivity|]. simpl. by repeat split.
  - intros now fs w0 tr w Hrun.
    pose proof (batch_reaches _ _ _ _ _ Hrun) as Hinv.
    split; [exact (inv_folder _ _ _ _ Hinv)|].
    split; [exact (inv_puts _ _ _ _ Hinv)|exact (inv_dest _ _ _ _ Hinv)].
Qed.

Lemma setScope_effect_witness :
  let fs := [mkFile "a.txt"] in
  let w0 := mounted (Some "u1") in
  exists w,
    run [SelectFolder "invoices"; PutFulfilled 0]
        (handleFileSelect (fun _ => 7%N) (Some fs) w0) = Some w /\
    selectedFolder (ui w) = "invoices" /\
    listCalls w = [""; "invoices"; ""] /\
    puts w = ["user-files/u1/7-a.txt"] /\
    batchFolder w = "".
Proof.
  intros fs w0. eexists. split; [reflexivity|].
  split; [reflexivity|]. split; [reflexivity|]. split; [reflexivity|].
  destruct setScope_effect as [_ H].
  edestruct H
    with (now := fun _ : nat => 7%N) (fs := fs) (w0 := w0)
         (tr := [SelectFolder "invoices"; PutFulfilled 0])
    as (Hfolder & _); [reflexivity|exact Hfolder].
Defined.

(** C8, as stated, fails: selecting the root folder while it is the
    current one starts no refresh. *)
Lemma same_folder_no_refresh_counterexample :
  ~ setScope_refreshes (mounted (Some "u1")) "".
Proof.
  intros (w' & Hstep & _ & Hlist).
  injection Hstep as <-. discriminate Hlist.
Qed.

(** ** Destination paths *)

Lemma pretty_N_char_digit x : is_digit (pretty_N_char x) = true.
Proof. unfold pretty_N_char. by repeat case_match. Qed.

Lemma pretty_N_go_digits x : forall s,
  all_digits s = true -> all_digits (pretty_N_go x s) = true.
Proof.
  induction (N.lt_wf_0 x) as [x _ IH]. intros s Hs.
  destruct (decide (x = 0%N)) as [->|Hx]; [by rewrite pretty_N_go_0|].
  rewrite pretty_N_go_step by lia.
  apply IH; [apply N.div_lt; lia|].
  simpl. by rewrite pretty_N_char_digit.
Qed.

Lemma pretty_N_digits (x : N) : all_digits (pretty x) = true.
Proof.
  unfold pretty, pretty_N. case_decide; [done|]. by apply pretty_N_go_digits.
Qed.

Lemma digits_dash_inj d1 : forall d2 n1 n2,
  all_digits d1 = true -> all_digits d2 = true ->
  d1 +:+ "-" +:+ n1 = d2 +:+ "-" +:+ n2 -> d1 = d2 /\ n1 = n2.
Proof.
  induction d1 as [|c1 d1 IH]; intros [|c2 d2] n1 n2 H1 H2 Heq.
  - change (String "-" n1 = String "-" n2) in Heq. by injection Heq as ->.
  - change (String "-" n1 = String c2 (d2 +:+ "-" +:+ n2)) in Heq.
    injection Heq as <- _. done.
  - change (String c1 (d1 +:+ "-" +:+ n1) = String "-" n2) in Heq.
    injection Heq as -> _. done.
  - change (String c1 (d1 +:+ "-" +:+ n1) = String c2 (d2 +:+ "-" +:+ n2)) in Heq.
    injection Heq as -> Heq.
    simpl in H1, H2.
    apply andb_prop in H1 as [_ H1]. apply andb_prop in H2 as [_ H2].
    destruct (IH d2 n1 n2 H1 H2 Heq) as [-> ->]. done.
Qed.

Lemma timestamped_inj t1 f1 t2 f2 :
  timestamped t1 f1 = timestamped t2 f2 <-> t1 = t2 /\ name f1 = name f2.
Proof.
  unfold timestamped. split.
  - intros Heq.
    apply digits_dash_inj in Heq as [Ht Hn]; try apply pretty_N_digits.
    split; [|done]. by apply (inj pretty).
  - by intros [-> ->].
Qed.

(** Two uploads of one batch get the same destination exactly when their
    clock readings and their file names both agree. *)
Lemma upload_path_collide folder id t1 f1 t2 f2 :
  falsy_string (Some id) = false ->
  upload_path folder (timestamped t1 f1) (Some id)
  = upload_path folder (timestamped t2 f2) (Some id)
  <-> t1 = t2 /\ name f1 = name f2.
Proof.
  intros Hid. unfold upload_path. rewrite Hid.
  rewrite <- timestamped_inj. split.
  - intros [= Heq]. by repeat apply String.app_inj in Heq.
  - by intros ->.
Qed.

(** C2 at the failing input.  [Date.now()] counts milliseconds and the
    paths of a batch are computed in one synchronous loop: two files of
    the same name whose iterations read the same millisecond are put to
    the same path. *)
Theorem same_name_same_millisecond_collide :
  let fs := [mkFile "a.txt"; mkFile "a.txt"] in
  let w := handleFileSelect (fun _ => 1700000000000%N) (Some fs)
                            (mounted (Some "u1")) in
  puts w = ["user-files/u1/1700000000000-a.txt";
            "user-files/u1/1700000000000-a.txt"] /\
  ~ NoDup (puts w).
Proof.
  intros fs w. split; [reflexivity|].
  intros Hnd. apply NoDup_cons in Hnd as [Hnotin _].
  apply Hnotin. left.
Qed.

(** * Further properties *)

(** ** More on strings *)

Lemma append_cons c (s t : string) : String c s +:+ t = String c (s +:+ t).
Proof. reflexivity. Qed.

Lemma append_nil_l (t : string) : "" +:+ t = t.
Proof. reflexivity. Qed.

Lemma append_nil_r (s : string) : s +:+ "" = s.
Proof. induction s as [|c s IH]; [done|]. by rewrite append_cons, IH. Qed.

Lemma append_assoc (s t u : string) : (s +:+ t) +:+ u = s +:+ (t +:+ u).
Proof. induction s as [|c s IH]; [done|]. by rewrite !append_cons, IH. Qed.

Lemma length_append (s t : string) :
  String.length (s +:+ t) = (String.length s + String.length t)%nat.
Proof. induction s as [|c s IH]; [done|]. rewrite append_cons. simpl. by rewrite IH. Qed.

Lemma contains_append c (s t : string) :
  contains c (s +:+ t) = contains c s || contains c t.
Proof.
  induction s as [|c' s IH]; [done|].
  rewrite append_cons. simpl. rewrite IH. by rewrite orb_assoc.
Qed.

Lemma all_digits_no_slash (s : string) :
  all_digits s = true -> contains "/" s = false.
Proof.
  induction s as [|c s IH]; [done|]. simpl.
  intros [Hc Hs]%andb_prop. rewrite (IH Hs), orb_false_r.
  apply bool_decide_eq_false. intros ->. done.
Qed.

(** ** split *)

Lemma split_nonempty sep s : split sep s <> [].
Proof.
  destruct s as [|c s]; [done|]. simpl.
  case_bool_decide; [done|]. by destruct (split sep s).
Qed.

Lemma split_no_sep sep s : contains sep s = false -> split sep s = [s].
Proof.
  induction s as [|c s IH]; [done|]. simpl.
  intros [Hc Hs]%orb_false_elim. rewrite Hc, (IH Hs). done.
Qed.

Lemma split_single sep s seg : split sep s = [seg] -> s = seg.
Proof.
  revert seg. induction s as [|c s IH]; intros seg; simpl.
  - by intros [= <-].
  - case_bool_decide.
    + intros [= _ Hs]. by destruct (split_nonempty sep s).
    + destruct (split sep s) as [|h t] eqn:Hs;
        [by destruct (split_nonempty sep s)|].
      intros [= <- ->]. by rewrite (IH h).
Qed.

Lemma split_append_sep sep (d n : string) :
  split sep (d +:+ String sep n) = (split sep d ++ split sep n)%list.
Proof.
  induction d as [|c d IH].
  - rewrite append_nil_l. simpl. by rewrite bool_decide_eq_true_2.
  - rewrite append_cons. simpl. rewrite IH. case_bool_decide; [done|].
    destruct (split sep d) as [|h t] eqn:Hd; [|done].
    by destruct (split_nonempty sep d).
Qed.

Lemma split_segments sep s seg :
  seg ∈ split sep s -> contains sep seg = false.
Proof.
  revert seg. induction s as [|c s IH]; intros seg; simpl.
  - by intros ->%list_elem_of_singleton.
  - case_bool_decide as Hc.
    + intros [->|Hin]%elem_of_cons; [done|]. by apply IH.
    + destruct (split sep s) as [|h t] eqn:Hs.
      * intros ->%list_elem_of_singleton. simpl.
        by rewrite bool_decide_eq_false_2.
      * intros [->|Hin]%elem_of_cons.
        -- simpl. rewrite bool_decide_eq_false_2 by done.
           apply IH. left.
        -- apply IH. by right.
Qed.

Lemma split_last_suffix sep s seg :
  last (split sep s) = Some seg -> exists pre, s = pre +:+ seg.
Proof.
  revert seg. induction s as [|c s IH]; intros seg; simpl.
  - intros [= <-]. by exists "".
  - case_bool_decide as Hc.
    + rewrite last_cons.
      destruct (last (split sep s)) as [y|] eqn:Hl.
      * intros [= <-]. destruct (IH y eq_refl) as [pre ->].
        by exists (String c pre).
      * apply last_None in Hl. by destruct (split_nonempty sep s).
    + destruct (split sep s) as [|h t] eqn:Hs;
        [by destruct (split_nonempty sep s)|].
      destruct t as [|h' t].
      * intros [= <-]. apply split_single in Hs as ->. by exists "".
      * rewrite last_cons_cons. intros Hl.
        destruct (IH seg) as [pre ->]; [by rewrite last_cons_cons|].
        by exists (String c pre).
Qed.

(** ** getFileName *)

Lemma getFileName_segment path seg :
  last (split "/" path) = Some seg -> seg <> "" -> getFileName path = seg.
Proof.
  intros Hl Hne. unfold getFileName. rewrite Hl.
  by rewrite bool_decide_eq_false_2.
Qed.

Lemma getFileName_no_slash path :
  contains "/" path = false -> getFileName path = path.
Proof.
  intros Hp. unfold getFileName. rewrite (split_no_sep _ _ Hp). simpl.
  by case_bool_decide.
Qed.

Lemma getFileName_after_slash dir fname :
  fname <> "" -> contains "/" fname = false ->
  getFileName (dir +:+ "/" +:+ fname) = fname.
Proof.
  intros Hne Hns. apply getFileName_segment; [|done].
  change (dir +:+ "/" +:+ fname) with (dir +:+ String "/" fname).
  rewrite split_append_sep, (split_no_sep _ _ Hns).
  by rewrite last_snoc.
Qed.

(** The displayed name of [dir/name] is [name], for every directory part
    and every name that is not empty and holds no slash. *)
Theorem getFileName_join dir fname :
  fname <> "" -> contains "/" fname = false ->
  getFileName (dir +:+ "/" +:+ fname) = fname.
Proof.
  intros Hne Hns. unfold getFileName.
  change (dir +:+ "/" +:+ fname) with (dir +:+ String "/" fname).
  rewrite split_append_sep, (split_no_sep _ _ Hns), last_snoc.
  by rewrite bool_decide_eq_false_2.
Qed.

Lemma getFileName_join_witness :
  getFileName ("user-files/u1/invoices" +:+ "/" +:+ "7-a.txt") = "7-a.txt".
Proof. apply getFileName_join; [discriminate|reflexivity]. Defined.

(** The fallback of [getFileName]: a path that ends in a slash, like a
    path without any slash, is displayed whole; the displayed name is
    empty only for the empty path. *)
Theorem getFileName_fallback path :
  getFileName (path +:+ "/") = path +:+ "/" /\
  (getFileName path = "" <-> path = "").
Proof.
  split.
  - unfold getFileName.
    change (path +:+ "/") with (path +:+ String "/" "").
    rewrite split_append_sep. simpl. by rewrite last_snoc.
  - split; [|by intros ->].
    unfold getFileName.
    destruct (last (split "/" path)) as [seg|]; [|done].
    by case_bool_decide.
Qed.

(** [getFileName] applied twice gives what it gives once; its result is
    a suffix of the path; and unless it is the whole path it holds no
    slash. *)
Theorem getFileName_idempotent path :
  getFileName (getFileName path) = getFileName path /\
  (exists pre, path = pre +:+ getFileName path) /\
  (getFileName path = path \/ contains "/" (getFileName path) = false).
Proof.
  destruct (last (split "/" path)) as [seg|] eqn:Hl.
  - destruct (decide (seg = "")) as [Hseg|Hseg].
    + assert (getFileName path = path) as ->.
      { unfold getFileName. rewrite Hl. by rewrite bool_decide_eq_true_2. }
      assert (getFileName path = path) as ->.
      { unfold getFileName. rewrite Hl. by rewrite bool_decide_eq_true_2. }
      split; [done|]. split; [by exists ""|by left].
    + rewrite (getFileName_segment _ _ Hl Hseg).
      assert (contains "/" seg = false) as Hns.
      { eapply split_segments. by apply last_Some_elem_of. }
      split; [by apply getFileName_no_slash|].
      split; [by eapply split_last_suffix|by right].
  - apply last_None in Hl. by destruct (split_nonempty "/" path).
Qed.

Lemma timestamped_no_slash t f :
  contains "/" (name f) = false -> contains "/" (timestamped t f) = false.
Proof.
  intros Hn. unfold timestamped.
  rewrite contains_append, (all_digits_no_slash _ (pretty_N_digits t)).
  change ("-" +:+ name f) with (String "-" (name f)). simpl.
  by rewrite Hn.
Qed.

Lemma timestamped_longer t f :
  (String.length (name f) < String.length (timestamped t f))%nat.
Proof.
  unfold timestamped. rewrite length_append.
  change ("-" +:+ name f) with (String "-" (name f)). simpl. lia.
Qed.

Lemma upload_path_split folder fname identityId p :
  upload_path folder fname identityId = Some p ->
  exists id dir, identityId = Some id /\ id <> "" /\
                 p = own_prefix id +:+ folderPath folder +:+ fname /\
                 p = dir +:+ "/" +:+ fname.
Proof.
  unfold upload_path. destruct identityId as [id|]; [|done].
  destruct (falsy_string (Some id)) eqn:Hf; [done|]. intros [= <-].
  simpl in Hf. apply bool_decide_eq_false in Hf.
  unfold folderPath. case_bool_decide as Hfolder.
  - exists id, ("user-files/" +:+ id). split; [done|]. split; [done|].
    unfold own_prefix. by rewrite !append_assoc.
  - exists id, ("user-files/" +:+ id +:+ "/" +:+ folder).
    split; [done|]. split; [done|].
    unfold own_prefix. by rewrite !append_assoc.
Qed.

(** The name the list shows for an uploaded file is the time-stamped
    name [`${Date.now()}-${file.name}`], never the original name: the
    stamp is not removed again. *)
Theorem uploaded_file_shows_stamped_name now fs w0 tr w i u p :
  run tr (handleFileSelect now (Some fs) w0) = Some w ->
  uploads w !! i = Some u -> dest u = Some p ->
  contains "/" (name (file u)) = false ->
  getFileName p = timestamped (now i) (file u) /\
  getFileName p <> name (file u).
Proof.
  intros Hrun Hu Hd Hns.
  pose proof (batch_reaches _ _ _ _ _ Hrun) as Hinv.
  rewrite (inv_dest _ _ _ _ Hinv i u Hu) in Hd.
  apply upload_path_split in Hd as (id & dir & _ & _ & _ & ->).
  assert (getFileName (dir +:+ "/" +:+ timestamped (now i) (file u))
          = timestamped (now i) (file u)) as ->.
  { apply getFileName_after_slash; [|by apply timestamped_no_slash].
    intros Hempty. pose proof (timestamped_longer (now i) (file u)) as Hlen.
    rewrite Hempty in Hlen. simpl in Hlen. lia. }
  split; [done|]. intros Heq.
  pose proof (timestamped_longer (now i) (file u)) as Hlen.
  rewrite Heq in Hlen. lia.
Qed.

Lemma uploaded_file_shows_stamped_name_witness :
  getFileName "user-files/u1/7-a.txt" = "7-a.txt" /\
  getFileName "user-files/u1/7-a.txt" <> "a.txt".
Proof.
  eapply (uploaded_file_shows_stamped_name (fun _ => 7%N) [mkFile "a.txt"]
            (mounted (Some "u1")) [] _ 0%nat
            (mkUpload (mkFile "a.txt") (Some "user-files/u1/7-a.txt") Pending)).
  - reflexivity.
  - reflexivity.
  - reflexivity.
  - reflexivity.
Defined.

(** ** trim and createFolder *)

Lemma trimEnd_idempotent s : trimEnd (trimEnd s) = trimEnd s.
Proof.
  induction s as [|c s IH]; [done|]. simpl.
  destruct (trimEnd s) as [|c' t] eqn:Ht.
  - destruct (is_whitespace c) eqn:Hc; [done|]. simpl. by rewrite Hc.
  - remember (String c' t) as r. simpl. rewrite IH. by subst r.
Qed.

Lemma trimStart_blank s : all_whitespace s = true -> trimStart s = "".
Proof.
  induction s as [|c s IH]; [done|]. simpl.
  intros [Hc Hs]%andb_prop. rewrite Hc. by apply IH.
Qed.

Lemma trimStart_first s c :
  first_char (trimStart s) = Some c -> is_whitespace c = false.
Proof.
  induction s as [|c' s IH]; [done|]. simpl.
  destruct (is_whitespace c') eqn:Hc; [done|]. simpl. by intros [= <-].
Qed.

Lemma trimStart_not_blank s :
  all_whitespace s = false -> trimStart s <> "".
Proof.
  induction s as [|c s IH]; [done|]. simpl.
  destruct (is_whitespace c) eqn:Hc; [|done]. simpl. exact IH.
Qed.

Lemma trimEnd_last s c :
  last_char (trimEnd s) = Some c -> is_whitespace c = false.
Proof.
  revert c. induction s as [|c' s IH]; intros c; [done|]. simpl.
  destruct (trimEnd s) as [|c'' t] eqn:Ht.
  - destruct (is_whitespace c') eqn:Hc; [done|]. simpl. by intros [= <-].
  - remember (String c'' t) as r. simpl.
    destruct (last_char r) as [x|] eqn:Hl.
    + intros [= <-]. by apply IH.
    + subst r. simpl in Hl. by destruct (last_char t).
Qed.

Lemma trimEnd_first s c :
  first_char s = Some c -> is_whitespace c = false ->
  first_char (trimEnd s) = Some c.
Proof.
  destruct s as [|c' s]; [done|]. simpl. intros [= ->] Hc.
  destruct (trimEnd s); [by rewrite Hc|done].
Qed.

Lemma trim_blank s : all_whitespace s = true -> trim s = "".
Proof. intros Hs. unfold trim. by rewrite trimStart_blank. Qed.

Lemma trim_first s :
  all_whitespace s = false ->
  exists c, first_char (trim s) = Some c /\ is_whitespace c = false.
Proof.
  intros Hs. apply trimStart_not_blank in Hs. unfold trim.
  destruct (trimStart s) as [|c t] eqn:Ht; [done|].
  exists c. pose proof (trimStart_first s c) as Hc. rewrite Ht in Hc.
  specialize (Hc eq_refl). split; [|done]. by apply trimEnd_first.
Qed.

Lemma trim_idempotent s : trim (trim s) = trim s.
Proof.
  destruct (all_whitespace s) eqn:Hs.
  - by rewrite (trim_blank s Hs).
  - destruct (trim_first s Hs) as (c & Hc & Hws).
    unfold trim at 1.
    assert (trimStart (trim s) = trim s) as ->.
    { destruct (trim s) as [|c' t]; [done|]. simpl in *.
      injection Hc as ->. by rewrite Hws. }
    unfold trim. apply trimEnd_idempotent.
Qed.

(** A prompt that was cancelled, or answered with nothing but white
    space, changes nothing: no scope change and no refresh. *)
Theorem createFolder_blank w :
  createFolder None w = Some w /\
  forall answer, all_whitespace answer = true ->
                 createFolder (Some answer) w = Some w.
Proof.
  split; [done|]. intros answer Hblank. unfold createFolder.
  rewrite (trim_blank _ Hblank). simpl. by rewrite andb_false_r.
Qed.

Lemma createFolder_blank_witness :
  createFolder (Some "  ") (mounted (Some "u1")) = Some (mounted (Some "u1")).
Proof.
  destruct (createFolder_blank (mounted (Some "u1"))) as [_ H].
  apply H. reflexivity.
Defined.

Lemma createFolder_accepts w answer :
  all_whitespace answer = false ->
  trim answer <> "" /\
  createFolder (Some answer) w = step (SelectFolder (trim answer)) w.
Proof.
  intros Hs.
  destruct (trim_first _ Hs) as (c & Hc & _).
  assert (trim answer <> "") as Hne by (intros Heq; by rewrite Heq in Hc).
  assert (answer <> "") as Hans by (intros ->; done).
  split; [done|]. unfold createFolder.
  by rewrite (bool_decide_eq_false_2 _ Hans), (bool_decide_eq_false_2 _ Hne).
Qed.

(** An answer with something other than white space makes the trimmed
    answer the scope: the new scope is not empty, neither starts nor
    ends with white space, and trimming it again changes nothing.  A
    refresh for it starts when it differs from the scope so far; the
    uploads in flight and the puts issued are untouched. *)
Theorem createFolder_sets_trimmed_scope w answer :
  all_whitespace answer = false ->
  exists w', createFolder (Some answer) w = Some w' /\
    selectedFolder (ui w') = trim answer /\
    trim answer <> "" /\
    (exists c, first_char (trim answer) = Some c /\ is_whitespace c = false) /\
    (exists c, last_char (trim answer) = Some c /\ is_whitespace c = false) /\
    trim (trim answer) = trim answer /\
    uploads w' = uploads w /\ puts w' = puts w /\
    (trim answer <> selectedFolder (ui w) ->
     listCalls w' = (listCalls w ++ [trim answer])%list).
Proof.
  intros Hs.
  destruct (createFolder_accepts w answer Hs) as [Hne ->].
  destruct (trim_first _ Hs) as (c & Hc & Hws).
  assert (exists c', last_char (trim answer) = Some c' /\ is_whitespace c' = false)
    as Hlast.
  { destruct (last_char (trim answer)) as [c'|] eqn:Hl.
    - exists c'. split; [done|]. by apply (trimEnd_last (trimStart answer)).
    - destruct (trim answer) as [|x t]; [done|]. simpl in Hl.
      by destruct (last_char t). }
  simpl. case_bool_decide as Hsame.
  - exists w. split; [done|]. split; [done|]. split; [done|].
    split; [by exists c|]. split; [done|].
    split; [apply trim_idempotent|]. by repeat split.
  - eexists. split; [reflexivity|]. simpl. split; [done|]. split; [done|].
    split; [by exists c|]. split; [done|].
    split; [apply trim_idempotent|]. by repeat split.
Qed.

Lemma createFolder_sets_trimmed_scope_witness :
  exists w', createFolder (Some "  invoices 2024 ") (mounted (Some "u1")) = Some w' /\
             selectedFolder (ui w') = "invoices 2024" /\
             listCalls w' = [""; "invoices 2024"].
Proof.
  destruct (createFolder_sets_trimmed_scope (mounted (Some "u1"))
              "  invoices 2024 " eq_refl)
    as (w' & Hw & Hsel & _ & _ & _ & _ & _ & _ & Hlist).
  exists w'. split; [exact Hw|]. split; [exact Hsel|].
  apply Hlist. discriminate.
Defined.

(** Files selected after a folder was created are put under
    [user-files/{identityId}/{folder}/], where the folder is the trimmed
    answer of the prompt. *)
Theorem createFolder_then_upload w answer w1 id now fs i f :
  identity w = Some id -> id <> "" ->
  all_whitespace answer = false ->
  createFolder (Some answer) w = Some w1 ->
  fs !! i = Some f ->
  exists u, uploads (handleFileSelect now (Some fs) w1) !! i = Some u /\
            file u = f /\
            dest u = Some ("user-files/" +:+ id +:+ "/" +:+ trim answer +:+ "/"
                           +:+ timestamped (now i) f).
Proof.
  intros Hid Hne Hs Hcreate Hf.
  destruct (createFolder_accepts w answer Hs) as [Hnonempty Hstep].
  assert (selectedFolder (ui w1) = trim answer /\ identity w1 = Some id)
    as [Hsel Hid1].
  { rewrite Hstep in Hcreate. simpl in Hcreate.
    case_bool_decide as Hsame; injection Hcreate as <-; simpl; by split. }
  pose proof (handleFileSelect_inv now fs w1) as Hinv.
  pose proof (inv_files _ _ _ _ Hinv) as Hfiles.
  assert (exists u, uploads (handleFileSelect now (Some fs) w1) !! i = Some u
                    /\ file u = f) as (u & Hu & Hfile).
  { rewrite <- Hfiles, list_lookup_fmap in Hf.
    destruct (uploads (handleFileSelect now (Some fs) w1) !! i) as [u|]; [|done].
    injection Hf as Hf. by exists u. }
  exists u. split; [done|]. split; [done|].
  rewrite (inv_dest _ _ _ _ Hinv i u Hu), Hsel, Hid1, Hfile.
  unfold upload_path, folderPath. simpl.
  rewrite (bool_decide_eq_false_2 _ Hne), (bool_decide_eq_false_2 _ Hnonempty).
  by rewrite !append_assoc.
Qed.

Lemma createFolder_then_upload_witness :
  exists u,
    uploads (handleFileSelect (fun _ => 7%N) (Some [mkFile "a.txt"])
               (call_loadFiles "invoices"
                  (with_ui (setSelectedFolder "invoices") (mounted (Some "u1")))))
      !! 0%nat = Some u /\
    file u = mkFile "a.txt" /\
    dest u = Some "user-files/u1/invoices/7-a.txt".
Proof.
  apply (createFolder_then_upload (mounted (Some "u1")) " invoices " _ "u1"
           (fun _ => 7%N) [mkFile "a.txt"] 0%nat (mkFile "a.txt")).
  - reflexivity.
  - discriminate.
  - reflexivity.
  - reflexivity.
  - reflexivity.
Defined.

(** ** handleDeleteFile *)

(** A deletion that is declined sends nothing to the store and changes
    nothing; a deletion the store refuses leaves the file list as it was
    (no optimistic removal), starts no refresh, and shows
    ["Failed to delete file"]. *)
Theorem handleDeleteFile_keeps_list remove store identityId filePath s :
  handleDeleteFile false remove store identityId filePath s = (s, []) /\
  (remove filePath = false ->
   let r := handleDeleteFile true remove store identityId filePath s in
   files r.1 = files s /\ loading r.1 = loading s /\
   error r.1 = Some "Failed to delete file" /\
   r.2 = [RemoveCall filePath]).
Proof.
  split; [done|]. intros Hrm. unfold handleDeleteFile. simpl. by rewrite Hrm.
Qed.

Lemma handleDeleteFile_keeps_list_witness :
  let f := mkFileItem "user-files/u1/7-a.txt" (Some 3%N) None None in
  let s := setFiles [f] initialState in
  let r := handleDeleteFile true (fun _ => false) (fun _ => ListOk (Some []))
                            (Some "u1") "user-files/u1/7-a.txt" s in
  files r.1 = [f] /\ r.2 = [RemoveCall "user-files/u1/7-a.txt"].
Proof.
  intros f s r.
  destruct (handleDeleteFile_keeps_list (fun _ => false)
              (fun _ => ListOk (Some [])) (Some "u1") "user-files/u1/7-a.txt" s)
    as [_ H].
  destruct (H eq_refl) as (Hfiles & _ & _ & Hcalls).
  split; [exact Hfiles|exact Hcalls].
Defined.

(** After a deletion the store accepted, the component reloads and then
    clears the error: the error is gone and [loading] is off whatever the
    reload gave.  When the reload fails, its ["Failed to load files"] is
    wiped by that [setError(null)] and the list is the old one, so the
    deleted file stays displayed with no error shown; when it succeeds
    the list is the new listing. *)
Theorem handleDeleteFile_reload remove store identityId filePath s :
  remove filePath = true ->
  let r := handleDeleteFile true remove store identityId filePath s in
  error r.1 = None /\ loading r.1 = false /\
  r.2 = RemoveCall filePath :: loadFiles_calls (selectedFolder s) identityId /\
  (list_call store (selectedFolder s) identityId = ListErr ->
   files r.1 = files s /\
   error (loadFiles store identityId s) = Some "Failed to load files") /\
  (forall items,
     list_call store (selectedFolder s) identityId = ListOk items ->
     files r.1 = default [] items).
Proof.
  intros Hrm. unfold handleDeleteFile. simpl. rewrite Hrm. simpl.
  split; [done|]. unfold loadFiles.
  split; [by destruct (list_call store (selectedFolder s) identityId)|].
  split; [done|]. split.
  - intros ->. done.
  - intros items ->. done.
Qed.

Lemma handleDeleteFile_reload_witness :
  let f := mkFileItem "user-files/u1/7-a.txt" (Some 3%N) None None in
  let s := setFiles [f] initialState in
  let r := handleDeleteFile true (fun _ => true) (fun _ => ListErr)
                            (Some "u1") "user-files/u1/7-a.txt" s in
  error r.1 = None /\ files r.1 = [f].
Proof.
  intros f s r.
  destruct (handleDeleteFile_reload (fun _ => true) (fun _ => ListErr)
              (Some "u1") "user-files/u1/7-a.txt" s eq_refl)
    as (Herr & _ & _ & Hfail & _).
  split; [exact Herr|]. by destruct (Hfail eq_refl).
Defined.

(** ** loadFiles, once more *)

(** Refreshing twice in a row, with the store answering the same, gives
    the state that refreshing once gives. *)
Theorem loadFiles_idempotent store identityId s :
  loadFiles store identityId (loadFiles store identityId s)
  = loadFiles store identityId s.
Proof.
  unfold loadFiles.
  assert (forall r s', selectedFolder (loadFiles_end r (loadFiles_begin s'))
                       = selectedFolder s') as Hsel by (by intros []).
  rewrite Hsel.
  by destruct (list_call store (selectedFolder s) identityId).
Qed.

(** ** The user's own prefix *)

Lemma list_path_own folder id p :
  list_path folder (Some id) = Some p -> p = own_prefix id +:+ folder.
Proof.
  unfold list_path. destruct (falsy_string (Some id)); [done|].
  intros [= <-]. unfold own_prefix. by rewrite !append_assoc.
Qed.

(** Whatever the folder and the file names are, the component lists and
    puts only under [user-files/{identityId}/], the prefix that the
    storage rule grants to the identity. *)
Theorem paths_within_own_prefix :
  (forall folder id p,
     list_path folder (Some id) = Some p -> starts_with (own_prefix id) p) /\
  (forall now fs w0 tr w,
     run tr (handleFileSelect now (Some fs) w0) = Some w ->
     exists ds, puts w = (puts w0 ++ ds)%list /\
       forall p, p ∈ ds ->
         exists id, identity w0 = Some id /\ starts_with (own_prefix id) p).
Proof.
  split.
  - intros folder id p Hp. exists folder. by apply list_path_own.
  - intros now fs w0 tr w Hrun.
    pose proof (batch_reaches _ _ _ _ _ Hrun) as Hinv.
    exists (omap dest (uploads w)). split; [exact (inv_puts _ _ _ _ Hinv)|].
    intros p (u & [i Hu]%list_elem_of_lookup & Hd)%list_elem_of_omap.
    rewrite (inv_dest _ _ _ _ Hinv i u Hu) in Hd.
    apply upload_path_split in Hd as (id & _ & Hid & _ & -> & _).
    exists id. split; [done|]. by eexists.
Qed.

Lemma paths_within_own_prefix_witness :
  starts_with (own_prefix "u1") "user-files/u1/invoices" /\
  exists ds,
    puts (handleFileSelect (fun _ => 7%N) (Some [mkFile "a.txt"])
                           (mounted (Some "u1"))) = ([] ++ ds)%list /\
    forall p, p ∈ ds ->
      exists id, Some "u1" = Some id /\ starts_with (own_prefix id) p.
Proof.
  destruct paths_within_own_prefix as [Hlist Hputs].
  split.
  - apply (Hlist "invoices" "u1"). reflexivity.
  - apply (Hputs (fun _ => 7%N) [mkFile "a.txt"] (mounted (Some "u1")) []).
    reflexivity.
Defined.

(** ** Destinations of one batch *)

Lemma omap_dest_imap (F : nat -> File -> Upload) (G : nat -> File -> string)
    (fs : list File) :
  (forall i f, dest (F i f) = Some (G i f)) ->
  omap dest (imap F fs) = imap G fs.
Proof.
  revert F G. induction fs as [|f fs IH]; intros F G HFG; [done|].
  csimpl. rewrite HFG. simpl. f_equal.
  apply IH. intros i f'. apply HFG.
Qed.

Lemma handleFileSelect_uploads now fs w :
  uploads (handleFileSelect now (Some fs) w)
  = imap (fun index f =>
            mkUpload f (upload_path (selectedFolder (ui w))
                          (timestamped (now index) f) (identity w)) Pending) fs.
Proof.
  unfold handleFileSelect.
  match goal with |- uploads (await_all ?x) = _ =>
    destruct (await_all_frame x) as (_ & -> & _) end.
  done.
Qed.

Lemma handleFileSelect_puts now fs w :
  puts (handleFileSelect now (Some fs) w)
  = (puts w ++ omap dest (uploads (handleFileSelect now (Some fs) w)))%list.
Proof.
  rewrite handleFileSelect_uploads. unfold handleFileSelect.
  match goal with |- puts (await_all ?x) = _ =>
    destruct (await_all_frame x) as (_ & _ & _ & -> & _) end.
  done.
Qed.

Lemma imap_snd_names (G : nat -> File -> N * string) (fs : list File) :
  (forall i f, (G i f).2 = name f) ->
  snd <$> imap G fs = name <$> fs.
Proof.
  revert G. induction fs as [|f fs IH]; intros G HG; [done|].
  csimpl. rewrite HG. f_equal. apply IH. intros i f'. apply HG.
Qed.

(** With an identity, a batch of N files issues N puts, and their paths
    are pairwise distinct exactly when the pairs of clock reading and
    file name are; in particular they are when the file names are
    pairwise distinct, whatever the clock reads. *)
Theorem destinations_distinct_iff now fs w0 id :
  identity w0 = Some id -> id <> "" ->
  exists ds,
    puts (handleFileSelect now (Some fs) w0) = (puts w0 ++ ds)%list /\
    length ds = length fs /\
    (NoDup ds <-> NoDup (imap (stamp now) fs)) /\
    (NoDup (name <$> fs) -> NoDup ds).
Proof.
  intros Hid Hne.
  set (g := fun st : N * string =>
              "user-files/" +:+ id +:+ "/" +:+ folderPath (selectedFolder (ui w0))
              +:+ pretty st.1 +:+ "-" +:+ st.2).
  assert (Inj (=) (=) g) as Hinj.
  { intros [t1 n1] [t2 n2] Heq. unfold g in Heq. simpl in Heq.
    repeat apply String.app_inj in Heq.
    apply digits_dash_inj in Heq as [Ht ->]; try apply pretty_N_digits.
    by apply (inj pretty) in Ht as ->. }
  exists (g <$> imap (stamp now) fs).
  assert (omap dest (uploads (handleFileSelect now (Some fs) w0))
          = g <$> imap (stamp now) fs) as Hds.
  { rewrite handleFileSelect_uploads, fmap_imap.
    apply omap_dest_imap. intros i f. simpl.
    unfold upload_path. rewrite Hid. simpl.
    by rewrite (bool_decide_eq_false_2 _ Hne). }
  split; [by rewrite handleFileSelect_puts, Hds|].
  split; [by rewrite length_fmap, length_imap|].
  split; [by apply NoDup_fmap|].
  intros Hnames. apply NoDup_fmap; [done|].
  apply (NoDup_fmap_1 snd).
  by rewrite imap_snd_names.
Qed.

Lemma destinations_distinct_iff_witness :
  exists ds,
    puts (handleFileSelect (fun _ => 7%N) (Some [mkFile "a.txt"; mkFile "b.txt"])
                           (mounted (Some "u1"))) = ([] ++ ds)%list /\
    NoDup ds.
Proof.
  destruct (destinations_distinct_iff (fun _ => 7%N)
              [mkFile "a.txt"; mkFile "b.txt"] (mounted (Some "u1")) "u1"
              eq_refl ltac:(discriminate))
    as (ds & Hputs & _ & _ & Hnames).
  exists ds. split; [exact Hputs|].
  apply Hnames. apply NoDup_cons. split.
  - intros Hin%list_elem_of_singleton. discriminate Hin.
  - apply NoDup_singleton.
Defined.

(** ** What the progress section shows *)






(** ** What events leave alone *)

(** Among the events of one batch, a task that has settled stays as it
    is: the settling of another put, a progress callback for a put that
    is still pending, a list answer and a folder change leave its promise
    and its entry alone (the entry goes only when a timer clears the
    whole list). *)
Theorem settled_entry_is_final e w w' i u :
  step e w = Some w' ->
  e <> TimerFired -> timely_event e w = true ->
  uploads w !! i = Some u -> settle u <> Pending ->
  uploads w' !! i = Some u /\
  uploadProgress (ui w') !! i = uploadProgress (ui w) !! i.
Proof.
  intros Hstep He Hte Hu Hset.
  assert (forall j st f,
            j <> i ->
            uploads (await_all (set_upload j st
                       (with_ui (setUploadProgress (map_at j f)) w))) !! i = Some u /\
            uploadProgress (ui (await_all (set_upload j st
                       (with_ui (setUploadProgress (map_at j f)) w)))) !! i
            = uploadProgress (ui w) !! i) as Hother.
  { intros j st f Hji.
    match goal with |- uploads (await_all ?x) !! _ = _ /\ _ =>
      destruct (await_all_frame x) as (_ & -> & _);
      rewrite (await_all_uploadProgress x) end.
    simpl. rewrite list_lookup_alter_ne by done. split; [done|].
    rewrite map_at_lookup. destruct (uploadProgress (ui w) !! i); [|done].
    simpl. by rewrite bool_decide_eq_false_2. }
  destruct e as [j t T|j|j| |r|p]; simpl in Hstep.
  - simpl in Hte. destruct (uploads w !! j) as [uj|] eqn:Hj; [|done].
    apply bool_decide_eq_true in Hte.
    injection Hstep as <-. simpl. split; [done|].
    assert (j <> i) as Hji by (intros ->; rewrite Hu in Hj; by injection Hj as ->).
    destruct T as [T|]; [|done]. destruct T as [|T]; [done|]. simpl.
    rewrite map_at_lookup. destruct (uploadProgress (ui w) !! i); [|done].
    simpl. by rewrite bool_decide_eq_false_2.
  - destruct (uploads w !! j) as [[f [d|] []]|] eqn:Hj; try done.
    injection Hstep as <-.
    assert (j <> i) as Hji by (intros ->; rewrite Hu in Hj; by injection Hj as ->).
    by apply Hother.
  - destruct (uploads w !! j) as [[f d []]|] eqn:Hj; try done.
    injection Hstep as <-.
    assert (j <> i) as Hji by (intros ->; rewrite Hu in Hj; by injection Hj as ->).
    by apply Hother.
  - done.
  - destruct (pendingLists w); [done|].
    destruct (falsy_string (identity w) && negb (is_ListErr r)); [done|].
    injection Hstep as <-. simpl. split; [done|]. by destruct r.
  - case_bool_decide; injection Hstep as <-; done.
Qed.

Lemma settled_entry_is_final_witness :
  exists w w',
    run [PutFulfilled 0]
        (handleFileSelect (fun _ => 7%N) (Some [mkFile "a.txt"; mkFile "b.txt"])
                          (mounted (Some "u1"))) = Some w /\
    step (Progress 1 5%N (Some 10%N)) w = Some w' /\
    uploadProgress (ui w') !! 0%nat = uploadProgress (ui w) !! 0%nat.
Proof.
  eexists. eexists. split; [reflexivity|]. split; [reflexivity|].
  eapply (settled_entry_is_final (Progress 1 5%N (Some 10%N)) _ _ 0%nat
            (mkUpload (mkFile "a.txt") (Some "user-files/u1/7-a.txt") Fulfilled)).
  - reflexivity.
  - discriminate.
  - reflexivity.
  - reflexivity.
  - discriminate.
Defined.

Lemma step_puts e w w' :
  step e w = Some w' -> puts w' = puts w /\ identity w' = identity w.
Proof.
  intros Hstep. destruct e as [j t T|j|j| |r|p]; simpl in Hstep.
  - destruct (uploads w !! j); [|done].
    by injection Hstep as <-.
  - destruct (uploads w !! j) as [[f [d|] []]|]; try done.
    injection Hstep as <-.
    match goal with |- puts (await_all ?x) = _ /\ _ =>
      destruct (await_all_frame x) as (-> & _ & _ & -> & _) end. done.
  - destruct (uploads w !! j) as [[f d []]|]; try done.
    injection Hstep as <-.
    match goal with |- puts (await_all ?x) = _ /\ _ =>
      destruct (await_all_frame x) as (-> & _ & _ & -> & _) end. done.
  - destruct (timer w); try done. by injection Hstep as <-.
  - destruct (pendingLists w); [done|].
    destruct (falsy_string (identity w) && negb (is_ListErr r)); [done|].
    by injection Hstep as <-.
  - case_bool_decide; by injection Hstep as <-.
Qed.

(** The puts of a batch are all issued when the files are selected: no
    callback that runs later (a failure, a progress report, the timer, a
    list answer, a folder change) issues another put, so a failed upload
    is never retried. *)
Theorem no_put_after_selection tr : forall w w',
  run tr w = Some w' -> puts w' = puts w.
Proof.
  induction tr as [|e tr IH]; intros w w' Hrun; simpl in Hrun.
  - by injection Hrun as <-.
  - destruct (step e w) as [w1|] eqn:Hstep; [|done].
    rewrite (IH _ _ Hrun). by apply step_puts in Hstep as [-> _].
Qed.

Lemma no_put_after_selection_witness :
  exists w,
    run [PutRejected 0; SelectFolder "x"; PutRejected 1]
        (handleFileSelect (fun _ => 7%N) (Some [mkFile "a.txt"; mkFile "b.txt"])
                          (mounted (Some "u1"))) = Some w /\
    puts w = ["user-files/u1/7-a.txt"; "user-files/u1/7-b.txt"].
Proof.
  eexists. split; [reflexivity|].
  apply (no_put_after_selection
           [PutRejected 0; SelectFolder "x"; PutRejected 1]
           (handleFileSelect (fun _ => 7%N)
              (Some [mkFile "a.txt"; mkFile "b.txt"]) (mounted (Some "u1")))).
  reflexivity.
Defined.

(** ** An empty selection *)

(** With no file list the handler does nothing.  With an empty file list
    it issues no put, but [Promise.all([])] is fulfilled at once, so the
    success branch runs: the error is cleared, a refresh of the current
    folder starts and the timer is armed. *)
Theorem handleFileSelect_empty now w0 :
  handleFileSelect now None w0 = w0 /\
  let w := handleFileSelect now (Some []) w0 in
  puts w = puts w0 /\ uploads w = [] /\ uploadProgress (ui w) = [] /\
  batch w = Some Fulfilled /\ timer w = Armed /\
  error (ui w) = None /\ loading (ui w) = true /\
  listCalls w = (listCalls w0 ++ [selectedFolder (ui w0)])%list /\
  pendingLists w = S (pendingLists w0).
Proof.
  split; [done|]. simpl. unfold handleFileSelect, await_all. simpl.
  rewrite app_nil_r. by repeat split.
Qed.

(** ** The number formatFileSize prints *)

(** For a size from one byte up to, not including, 1024^4 bytes the
    number printed lies between 1.0 and 1024.0: it is the size over the
    largest power of 1024 not above it, rounded to one decimal, so that a
    size just below the next power is printed as 1024.0 of the smaller
    unit. *)
Theorem formatFileSize_number_range (b : N) :
  (1 <= b < 1024 ^ 4)%N ->
  (10 <= tenths b <= 10240)%N /\
  formatFileSize (Some b)
  = pretty (tenths b / 10)%N +:+ "." +:+ pretty (tenths b mod 10)%N
    +:+ " " +:+ template_unit (sizes !! unit_index b).
Proof.
  intros [Hb _]. split.
  - destruct (unit_index_spec b Hb) as [Hlo Hhi].
    unfold tenths.
    set (d := (1024 ^ N.of_nat (unit_index b))%N) in *.
    assert (0 < d)%N as Hd.
    { unfold d. apply N.neq_0_lt_0, N.pow_nonzero. lia. }
    rewrite N.pow_add_r, N.pow_1_r in Hhi. fold d in Hhi.
    split.
    + apply N.div_le_lower_bound; lia.
    + cut ((20 * b + d) / (2 * d) < 10241)%N; [lia|].
      apply N.Div0.div_lt_upper_bound. lia.
  - destruct b as [|p]; [lia|].
    unfold formatFileSize, toFixed1, tenths. cbv zeta.
    by rewrite !append_assoc.
Qed.

Lemma formatFileSize_number_range_witness :
  tenths (1024 * 1024 - 1) = 10240%N /\
  formatFileSize (Some (1024 * 1024 - 1)%N) = "1024.0 KB".
Proof.
  destruct (formatFileSize_number_range (1024 * 1024 - 1)%N ltac:(simpl; lia))
    as [_ Hfmt].
  split; [reflexivity|]. rewrite Hfmt. reflexivity.
Defined.

(** ** What the files section shows *)

(** A list that is showing stays on screen through a refresh: while the
    refresh runs and after it failed the section still shows the rows of
    the files it had, never the "Loading files..." or the "No files
    found" placeholder.  With nothing to show, a running refresh shows
    "Loading files...". *)
Theorem files_stay_visible s :
  (files s <> [] ->
   filesView (loadFiles_begin s) = FilesList (fileRow <$> files s) /\
   forall store identityId,
     list_call store (selectedFolder s) identityId = ListErr ->
     filesView (loadFiles store identityId s) = FilesList (fileRow <$> files s)) /\
  (files s = [] -> filesView (loadFiles_begin s) = LoadingFiles).
Proof.
  split.
  - intros Hne.
    assert (bool_decide (length (files s) = 0%nat) = false) as Hlen.
    { apply bool_decide_eq_false. by destruct (files s). }
    split.
    + unfold filesView. simpl. by rewrite Hlen.
    + intros store identityId Herr. unfold loadFiles. rewrite Herr.
      unfold filesView. simpl. by rewrite Hlen.
  - intros Hnil. unfold filesView. simpl. by rewrite Hnil.
Qed.

Lemma files_stay_visible_witness :
  let f := mkFileItem "user-files/u1/7-a.txt" (Some 2048%N) None None in
  let s := setFiles [f] initialState in
  filesView (loadFiles (fun _ => ListErr) (Some "u1") s)
  = FilesList [mkFileRow "user-files/u1/7-a.txt" "7-a.txt" "2.0 KB" None] /\
  filesView (loadFiles_begin initialState) = LoadingFiles.
Proof.
  intros f s.
  destruct (files_stay_visible s) as [Hshow _].
  destruct (files_stay_visible initialState) as [_ Hempty].
  split.
  - destruct (Hshow ltac:(discriminate)) as [_ Hfail].
    apply (Hfail (fun _ => ListErr) (Some "u1")). reflexivity.
  - apply Hempty. reflexivity.
Defined.

(** ** What a refresh covers *)

(** The path a refresh lists is a prefix of the destination of every file
    uploaded into the same folder, and also of every file uploaded into a
    folder whose name only begins with the listed folder's name: the
    listing of the root covers all folders, and the listing of [inv]
    covers [invoices]. *)
Theorem refresh_prefix_covers_uploads folder more fname id p q :
  upload_path (folder +:+ more) fname (Some id) = Some p ->
  list_path folder (Some id) = Some q ->
  starts_with q p.
Proof.
  intros Hp Hq.
  apply list_path_own in Hq as ->.
  apply upload_path_split in Hp as (id' & _ & [= <-] & _ & -> & _).
  unfold starts_with, folderPath. case_bool_decide as Hempty.
  - exists fname.
    assert (folder = "") as ->.
    { destruct folder; [done|]. discriminate Hempty. }
    by rewrite append_nil_r.
  - exists (more +:+ "/" +:+ fname).
    by rewrite !append_assoc.
Qed.

Lemma refresh_prefix_covers_uploads_witness :
  starts_with "user-files/u1/inv" "user-files/u1/invoices/7-a.txt" /\
  starts_with "user-files/u1/" "user-files/u1/invoices/7-a.txt".
Proof.
  split.
  - apply (refresh_prefix_covers_uploads "inv" "oices" "7-a.txt" "u1");
      reflexivity.
  - apply (refresh_prefix_covers_uploads "" "invoices" "7-a.txt" "u1");
      reflexivity.
Defined.
